(** * Advancedbeam: the single-form front end of the beam calculator

    [advancedbeam.py] is a script: it reads one form (span, stiffness, a
    table of supports, a table of loads), and on submission caches the two
    tables, builds a [Beam] of the [indeterminatebeam] package, adds one
    [Support] per complete support row and one load per complete load row,
    and asks the package to analyse the beam.

    The script is embedded as a function of the session state and of the
    values the form returns.  Table cells are [option] values ([None] for a
    missing cell, which is what [dropna] and [pd.notna] test), floats are
    exact rationals, exceptions are an error monad, and the assignments to
    [st.session_state] are explicit state passing.  The package is an
    interface ([Engine]); [Reference] instantiates it with the engine the
    specification describes. *)

From Stdlib Require Import QArith Qabs Lqa ZArith List String Bool Lia.
Import ListNotations.

Open Scope Q_scope.
Open Scope string_scope.
Open Scope list_scope.

(** ** Tables *)

(** A row of the supports editor: column [x] is a [NumberColumn], column
    [type] a [SelectboxColumn]; either cell may be empty. *)
Record SupportRow := mkSupportRow {
  sr_x : option Q;
  sr_type : option string
}.

(** A row of the loads editor: [kind], [magnitude], [x], [x_end]. *)
Record LoadRow := mkLoadRow {
  lr_kind : option string;
  lr_magnitude : option Q;
  lr_x : option Q;
  lr_x_end : option Q
}.

(** ** Constants (lines 15-28) *)

Definition DEFAULT_L : Q := 6.

Definition DEFAULT_SUPPORTS : list SupportRow :=
  [ mkSupportRow (Some 0) (Some "Fixed");
    mkSupportRow (Some DEFAULT_L) (Some "Fixed") ].

Definition DEFAULT_LOADS : list LoadRow :=
  [ mkLoadRow (Some "Point Load") (Some (-10000)) (Some (DEFAULT_L / 2)) None ].

(** The dict from dropdown label to the [(Ux, Uy, Rz)] tuple, in insertion
    order. *)
Definition SUPPORT_MAP : list (string * (Z * Z * Z)) :=
  [ ("Fixed", (1, 1, 1)%Z);
    ("Pin", (1, 1, 0)%Z);
    ("Roller", (0, 1, 0)%Z) ].

(** [list(SUPPORT_MAP)]: the options of the [type] dropdown. *)
Definition support_options : list string := map fst SUPPORT_MAP.

(** The options of the [kind] dropdown (line 65). *)
Definition kind_options : list string := ["Point Load"; "UDL"; "Torque"].

(** ** The objects handed to the package *)

(** [Support(coord, fixed)]. *)
Record Support := mkSupport {
  position : Q;
  fixed : Z * Z * Z
}.

(** [PointLoadV(force, coord)], [UDLV(force, span)], [PointTorque(force, coord)]. *)
Inductive Load :=
| PointLoadV (force coord : Q)
| UDLV (force : Q) (span : Q * Q)
| PointTorque (force coord : Q).

(** ** Exceptions *)

(** What can be raised while the script runs: a failed dict lookup, [float]
    of [None], or whatever the package raises. *)
Inductive exn (X : Type) :=
| KeyError (key : option string)
| TypeError
| EngineError (e : X).
Arguments KeyError {X} key.
Arguments TypeError {X}.
Arguments EngineError {X} e.

(** A computation that returns a value or raises [e]. *)
Inductive result (X A : Type) :=
| Ok (a : A)
| Raise (e : X).
Arguments Ok {X A} a.
Arguments Raise {X A} e.

Definition bind {X A B} (m : result X A) (k : A -> result X B) : result X B :=
  match m with
  | Ok a => k a
  | Raise e => Raise e
  end.

Notation "x <- m ;; k" := (bind m (fun x => k))
  (at level 61, m at next level, right associativity).

(** An exception of the package, as the script sees it. *)
Definition from_engine {X A} (r : result X A) : result (exn X) A :=
  match r with
  | Ok a => Ok a
  | Raise e => Raise (EngineError e)
  end.

(** ** The package, as the script uses it *)

Record Engine := mkEngine {
  beam : Type;
  analysis : Type;
  engine_error : Type;
  (** [Beam(length, E=E, I=I)] *)
  Beam : Q -> Q -> Q -> result engine_error beam;
  (** [beam.add_supports(Support(...))] *)
  add_supports : beam -> Support -> result engine_error beam;
  (** [beam.add_loads(...)] *)
  add_loads : beam -> Load -> result engine_error beam;
  (** [beam.analyse()], after which the plots and [get_reaction] are read *)
  analyse : beam -> result engine_error analysis
}.

(** ** Session state and form *)

(** [st.session_state], restricted to the two keys the script uses; [None]
    is an absent key. *)
Record SessionState := mkSession {
  ss_supports_df : option (list SupportRow);
  ss_loads_df : option (list LoadRow)
}.

Definition empty_session : SessionState := mkSession None None.

(** [st.session_state.get("supports_df", DEFAULT_SUPPORTS)]: the data the
    supports editor opens with. *)
Definition supports_editor_data (ss : SessionState) : list SupportRow :=
  match ss_supports_df ss with
  | Some df => df
  | None => DEFAULT_SUPPORTS
  end.

(** [st.session_state.get("loads_df", DEFAULT_LOADS)]. *)
Definition loads_editor_data (ss : SessionState) : list LoadRow :=
  match ss_loads_df ss with
  | Some df => df
  | None => DEFAULT_LOADS
  end.

(** What the widgets of the form return in one run of the script.  The
    span widget has [min_value=0.1]; the modulus and the second moment of
    area have no bound.  The record does not carry the bound: a property
    that needs it states it. *)
Record Form := mkForm {
  length : Q;
  E : Q;
  I : Q;
  supports_df : list SupportRow;
  loads_df : list LoadRow;
  submitted : bool
}.

(** The form as it opens in session [ss], submitted unedited. *)
Definition untouched_form (ss : SessionState) : Form :=
  mkForm DEFAULT_L 200e9 9.05e-6
         (supports_editor_data ss) (loads_editor_data ss) true.

(** ** Missing values *)

Definition notna {A} (c : option A) : bool :=
  match c with
  | Some _ => true
  | None => false
  end.

(** [supports_df.dropna()]: keep the rows with no missing cell. *)
Definition dropna_supports (df : list SupportRow) : list SupportRow :=
  filter (fun row => notna (sr_x row) && notna (sr_type row)) df.

(** [loads_df.dropna(subset=["kind", "magnitude", "x"])]. *)
Definition dropna_loads (df : list LoadRow) : list LoadRow :=
  filter (fun row => notna (lr_kind row) && notna (lr_magnitude row)
                     && notna (lr_x row)) df.

(** [float(cell)]. *)
Definition float {X} (c : option Q) : result (exn X) Q :=
  match c with
  | Some v => Ok v
  | None => Raise TypeError
  end.

(** [SUPPORT_MAP[key]]. *)
Fixpoint lookup (key : string) (d : list (string * (Z * Z * Z)))
  : option (Z * Z * Z) :=
  match d with
  | [] => None
  | (k, v) :: rest => if String.eqb key k then Some v else lookup key rest
  end.

Definition SUPPORT_MAP_getitem {X} (key : option string)
  : result (exn X) (Z * Z * Z) :=
  match key with
  | Some k =>
      match lookup k SUPPORT_MAP with
      | Some v => Ok v
      | None => Raise (KeyError key)
      end
  | None => Raise (KeyError key)
  end.

(** ** The script *)

(** Lines 97-103: the [if]/[elif] chain on [kind]; [None] when no branch
    is taken. *)
Definition dispatch (kind : option string) (mag x0 : Q) (x_end : option Q)
  : option Load :=
  match kind with
  | Some k =>
      if String.eqb k "Point Load" then Some (PointLoadV mag x0)
      else if String.eqb k "UDL" then
        let xe := match x_end with Some e => e | None => x0 end in
        Some (UDLV mag (x0, xe))
      else if String.eqb k "Torque" then Some (PointTorque mag x0)
      else None
  | None => None
  end.

Section Script.

Variable eng : Engine.

#[local] Abbreviation res := (result (exn (engine_error eng))).

(** Line 90: [Support(float(row["x"]), SUPPORT_MAP[row["type"]])]. *)
Definition support_of_row (row : SupportRow) : res Support :=
  x <- float (sr_x row) ;;
  restraint <- SUPPORT_MAP_getitem (sr_type row) ;;
  Ok (mkSupport x restraint).

(** Lines 89-90: the loop over the complete support rows. *)
Fixpoint add_support_rows (b : beam eng) (rows : list SupportRow) : res (beam eng) :=
  match rows with
  | [] => Ok b
  | row :: rest =>
      s <- support_of_row row ;;
      b' <- from_engine (add_supports eng b s) ;;
      add_support_rows b' rest
  end.

(** Lines 94-103: the body of the loads loop for one row. *)
Definition add_load_row (b : beam eng) (row : LoadRow) : res (beam eng) :=
  let kind := lr_kind row in
  mag <- float (lr_magnitude row) ;;
  x0 <- float (lr_x row) ;;
  match dispatch kind mag x0 (lr_x_end row) with
  | Some ld => from_engine (add_loads eng b ld)
  | None => Ok b
  end.

(** Lines 93-103. *)
Fixpoint add_load_rows (b : beam eng) (rows : list LoadRow) : res (beam eng) :=
  match rows with
  | [] => Ok b
  | row :: rest =>
      b' <- add_load_row b row ;;
      add_load_rows b' rest
  end.

(** Lines 86-106: build the beam and analyse it. *)
Definition build_and_analyse (f : Form) : res (analysis eng) :=
  b <- from_engine (Beam eng (length f) (E f) (I f)) ;;
  b <- add_support_rows b (dropna_supports (supports_df f)) ;;
  b <- add_load_rows b (dropna_loads (loads_df f)) ;;
  from_engine (analyse eng b).

(** What the main area shows below the title. *)
Inductive Page :=
| Idle                                   (* line 118: the hint to fill in the form *)
| Results (r : analysis eng)             (* lines 108-115 *)
| Traceback (e : exn (engine_error eng)) (* an uncaught exception *).

(** One run of the script.  The two assignments to [st.session_state]
    (lines 82-83) come before the beam is built, and an exception raised
    afterwards does not undo them. *)
Definition script (ss : SessionState) (f : Form) : SessionState * Page :=
  if submitted f then
    let ss' := mkSession (Some (supports_df f)) (Some (loads_df f)) in
    (ss', match build_and_analyse f with
          | Ok r => Results r
          | Raise e => Traceback e
          end)
  else (ss, Idle).

End Script.

Arguments Idle {eng}.
Arguments Results {eng} r.
Arguments Traceback {eng} e.

(** ** The engine of the specification

    The [indeterminatebeam] package is not part of this repository: the
    script only calls it.  [Reference] is the engine as the specification
    describes it (sections 3, 4 and 7), over exact rationals. *)

Module Reference.

(** Modelled from the spec: the failures of section 7, which the package
    (absent from the source) is to report. *)
Inductive Error :=
| InvalidGeometry
| InvalidPosition
| UnstableStructure
| SingularSystem.

(** Modelled from the spec: the two treatments section 9 allows for a
    distributed load with [start == end]; the engine is built for either. *)
Inductive Degenerate :=
| Reject
| Convert.

(** Modelled from the spec: the entity model of section 3, a beam with the
    supports and loads that refer to it, in the order they were added. *)
Record Model := mkModel {
  m_length : Q;
  m_E : Q;
  m_I : Q;
  m_supports : list Support;
  m_loads : list Load
}.

(** Modelled from the spec: section 4.1, construction fails with
    [InvalidGeometry] if [length <= 0], [E <= 0] or [I <= 0]. *)
Definition new_beam (l e i : Q) : result Error Model :=
  if Qle_bool l 0 || Qle_bool e 0 || Qle_bool i 0
  then Raise InvalidGeometry
  else Ok (mkModel l e i [] []).

(** [x] lies in [[0, length]]. *)
Definition on_span (m : Model) (x : Q) : bool :=
  Qle_bool 0 x && Qle_bool x (m_length m).

(** Modelled from the spec: section 4.1, [InvalidPosition] for a support
    position outside [[0, length]]. *)
Definition add_support (m : Model) (s : Support) : result Error Model :=
  if on_span m (position s)
  then Ok (mkModel (m_length m) (m_E m) (m_I m) (m_supports m ++ [s]) (m_loads m))
  else Raise InvalidPosition.

Definition push_load (m : Model) (ld : Load) : Model :=
  mkModel (m_length m) (m_E m) (m_I m) (m_supports m) (m_loads m ++ [ld]).

(** Modelled from the spec: section 4.1, [InvalidPosition] for a load
    position outside [[0, length]] or a distributed load with
    [start > end]; sections 3 and 9 for [start == end], which is rejected
    or turned into a point force of magnitude intensity times zero width. *)
Definition add_load (policy : Degenerate) (m : Model) (ld : Load)
  : result Error Model :=
  match ld with
  | PointLoadV _ x | PointTorque _ x =>
      if on_span m x then Ok (push_load m ld) else Raise InvalidPosition
  | UDLV q (a, b) =>
      if negb (on_span m a && on_span m b) then Raise InvalidPosition
      else if negb (Qle_bool a b) then Raise InvalidPosition
      else if Qeq_bool a b then
        match policy with
        | Reject => Raise InvalidPosition
        | Convert => Ok (push_load m (PointLoadV (q * 0) a))
        end
      else Ok (push_load m ld)
  end.

(** *** Restraints *)

Definition restrained (flag : Z) : bool := negb (Z.eqb flag 0).

Definition Ux (s : Support) : bool := let '(ux, _, _) := fixed s in restrained ux.
Definition Uy (s : Support) : bool := let '(_, uy, _) := fixed s in restrained uy.
Definition Rz (s : Support) : bool := let '(_, _, rz) := fixed s in restrained rz.

Definition count (b : bool) : Z := if b then 1%Z else 0%Z.

(** Modelled from the spec: section 3, [redundancy = sum(restraints) - 3]. *)
Definition redundancy (supports : list Support) : Z :=
  (fold_right (fun s acc => count (Ux s) + count (Uy s) + count (Rz s) + acc)
              0 supports - 3)%Z.

(** *** Singularity functions *)

Fixpoint pow (q : Q) (n : nat) : Q :=
  match n with
  | O => 1
  | S k => q * pow q k
  end.

(** The Macaulay bracket [<x - a>^n]; at [x = a] the value is the limit
    from the right. *)
Definition bracket (n : nat) (x a : Q) : Q :=
  if Qle_bool a x then pow (x - a) n else 0.

(** Modelled from the spec: section 4.4.  What one external action (an
    applied load or a reaction), upward and anti-clockwise positive,
    contributes to the vertical resultant, to the moment about [x = 0], to
    the shear and the bending moment at [x], and to [EI] times the slope
    and the deflection at [x]. *)
Definition resultant (ld : Load) : Q :=
  match ld with
  | PointLoadV f _ => f
  | UDLV q (a, b) => q * (b - a)
  | PointTorque _ _ => 0
  end.

Definition moment_about_origin (ld : Load) : Q :=
  match ld with
  | PointLoadV f a => f * a
  | UDLV q (a, b) => q * (b - a) * ((a + b) / 2)
  | PointTorque t _ => t
  end.

Definition shear_of (ld : Load) (x : Q) : Q :=
  match ld with
  | PointLoadV f a => f * bracket 0 x a
  | UDLV q (a, b) => q * (bracket 1 x a - bracket 1 x b)
  | PointTorque _ _ => 0
  end.

Definition moment_of (ld : Load) (x : Q) : Q :=
  match ld with
  | PointLoadV f a => f * bracket 1 x a
  | UDLV q (a, b) => q / 2 * (bracket 2 x a - bracket 2 x b)
  | PointTorque t a => - t * bracket 0 x a
  end.

Definition slope_of (ld : Load) (x : Q) : Q :=
  match ld with
  | PointLoadV f a => f / 2 * bracket 2 x a
  | UDLV q (a, b) => q / 6 * (bracket 3 x a - bracket 3 x b)
  | PointTorque t a => - t * bracket 1 x a
  end.

Definition deflection_of (ld : Load) (x : Q) : Q :=
  match ld with
  | PointLoadV f a => f / 6 * bracket 3 x a
  | UDLV q (a, b) => q / 24 * (bracket 4 x a - bracket 4 x b)
  | PointTorque t a => - t / 2 * bracket 2 x a
  end.

Definition total (f : Load -> Q) (lds : list Load) : Q :=
  fold_right (fun ld acc => f ld + acc) 0 lds.

(** *** Equations (section 4.2) *)

(** The reaction components of a support as actions of unknown magnitude
    at its position: a vertical force where [Uy] is restrained, a couple
    where [Rz] is.  No load of section 3 has an axial component, so the
    model is that of the transverse problem and carries no axial unknown. *)
Definition components (s : Support) : list (Q -> Load) :=
  (if Uy s then [fun v => PointLoadV v (position s)] else []) ++
  (if Rz s then [fun v => PointTorque v (position s)] else []).

Definition unknowns (supports : list Support) : list (Q -> Load) :=
  flat_map components supports.

(** One equation: the coefficient of each unknown is the effect of its unit
    value alone, [c1] and [c2] are the coefficients of the two integration
    constants, and the applied loads go to the right-hand side, which is
    the last entry of the row. *)
Definition equation (effect : Load -> Q) (c1 c2 : Q)
           (us : list (Q -> Load)) (applied : list Load) : list Q :=
  map (fun u => effect (u 1)) us ++ [c1; c2; - total effect applied].

(** Modelled from the spec: the compatibility conditions of section 4.2,
    zero deflection where [Uy] is restrained and zero rotation where [Rz]
    is.  The spec leaves the choice of redundants partly open and notes
    (section 9) that the reactions do not depend on it; here every
    restraint condition is imposed at once, with the two integration
    constants of section 4.4 as further unknowns, which is the same linear
    problem. *)
Definition compatibility (us : list (Q -> Load)) (applied : list Load)
           (s : Support) : list (list Q) :=
  let x := position s in
  (if Uy s then [equation (fun ld => deflection_of ld x) x 1 us applied] else []) ++
  (if Rz s then [equation (fun ld => slope_of ld x) 1 0 us applied] else []).

(** Modelled from the spec: vertical and moment equilibrium (about
    [x = 0]), then the compatibility conditions, support by support. *)
Definition assemble (m : Model) : list (list Q) :=
  let us := unknowns (m_supports m) in
  let applied := m_loads m in
  equation resultant 0 0 us applied
  :: equation moment_about_origin 0 0 us applied
  :: flat_map (compatibility us applied) (m_supports m).

(** *** Linear solver (section 4.3) *)

Definition lead (r : list Q) : Q := hd 0 r.

(** Partial pivoting: the row with the largest leading entry in absolute
    value, the first of them on a tie, and the other rows in their order;
    [None] when every leading entry is zero. *)
Fixpoint pick_pivot (rows : list (list Q)) : option (list Q * list (list Q)) :=
  match rows with
  | [] => None
  | r :: rest =>
      match pick_pivot rest with
      | Some (p, others) =>
          if Qle_bool (Qabs (lead p)) (Qabs (lead r))
          then Some (r, rest)
          else Some (p, r :: others)
      | None => if Qeq_bool (lead r) 0 then None else Some (r, rest)
      end
  end.

(** [r] minus the multiple of the pivot row [p] that clears its leading
    entry, without that entry. *)
Definition eliminate (p r : list Q) : list Q :=
  let k := lead r / lead p in
  tl (map (fun ab => Qred (fst ab - k * snd ab)) (combine r p)).

(** The right-hand side of a row minus its terms in the known [xs]. *)
Fixpoint residual (cs xs : list Q) : Q :=
  match cs, xs with
  | c :: cs', x :: xs' => residual cs' xs' - c * x
  | [rhs], [] => rhs
  | _, _ => 0
  end.

(** Modelled from the spec: Gaussian elimination with partial pivoting on
    [n] equations in [n] unknowns; [None] for a singular matrix.  Over
    exact rationals a pivot is zero or it is not: no tolerance is needed. *)
Fixpoint gauss (n : nat) (rows : list (list Q)) : option (list Q) :=
  match n with
  | O => Some []
  | S n' =>
      match pick_pivot rows with
      | None => None
      | Some (p, others) =>
          match gauss n' (map (eliminate p) others) with
          | None => None
          | Some xs => Some (Qred (residual (tl p) xs / lead p) :: xs)
          end
      end
  end.

(** *** Results (sections 4.4 and 4.5) *)

(** The solved model: the reaction components in the order of [unknowns],
    and the two integration constants. *)
Record Analysis := mkAnalysis {
  a_model : Model;
  a_values : list Q;
  a_c1 : Q;
  a_c2 : Q
}.

(** Modelled from the spec: section 4.2, a structure with negative
    redundancy is unstable; section 3, some support must restrain [Uy];
    section 7, so is one whose restraints leave a rigid-body motion free
    (three rollers: nothing restrains [Ux]).  Section 4.3: a singular
    system is reported, never solved arbitrarily. *)
Definition analyse (m : Model) : result Error Analysis :=
  let supports := m_supports m in
  if (redundancy supports <? 0)%Z then Raise UnstableStructure
  else if negb (existsb Ux supports && existsb Uy supports)
  then Raise UnstableStructure
  else
    let n := List.length (unknowns supports) in
    match gauss (n + 2) (assemble m) with
    | None => Raise SingularSystem
    | Some xs =>
        Ok (mkAnalysis m (firstn n xs) (nth n xs 0) (nth (S n) xs 0))
    end.

(** The reaction of a support: one component per restrained transverse
    degree of freedom. *)
Record Reaction := mkReaction {
  Ry : option Q;
  Mz : option Q
}.

Fixpoint attach (supports : list Support) (vs : list Q) : list Reaction :=
  match supports with
  | [] => []
  | s :: rest =>
      let vs1 := if Uy s then tl vs else vs in
      let vs2 := if Rz s then tl vs1 else vs1 in
      mkReaction (if Uy s then Some (hd 0 vs) else None)
                 (if Rz s then Some (hd 0 vs1) else None)
      :: attach rest vs2
  end.

(** [beam.get_reaction(i)]: the reaction of the [i]-th support added. *)
Definition get_reaction (r : Analysis) (i : nat) : Reaction :=
  nth i (attach (m_supports (a_model r)) (a_values r)) (mkReaction None None).

(** All external actions on the solved beam: the applied loads and the
    reactions. *)
Definition actions (r : Analysis) : list Load :=
  m_loads (a_model r)
  ++ map (fun uv => fst uv (snd uv))
         (combine (unknowns (m_supports (a_model r))) (a_values r)).

(** Modelled from the spec: the four field functions of sections 3 and
    4.4. *)
Definition shear (r : Analysis) (x : Q) : Q :=
  total (fun ld => shear_of ld x) (actions r).

Definition moment (r : Analysis) (x : Q) : Q :=
  total (fun ld => moment_of ld x) (actions r).

Definition slope (r : Analysis) (x : Q) : Q :=
  (total (fun ld => slope_of ld x) (actions r) + a_c1 r)
  / (m_E (a_model r) * m_I (a_model r)).

Definition deflection (r : Analysis) (x : Q) : Q :=
  (total (fun ld => deflection_of ld x) (actions r) + a_c1 r * x + a_c2 r)
  / (m_E (a_model r) * m_I (a_model r)).

(** The engine, as the script's interface sees it. *)
Definition engine (policy : Degenerate) : Engine :=
  mkEngine Model Analysis Error new_beam add_support (add_load policy) analyse.

End Reference.

(** ** An engine that accepts everything

    [recorder] keeps the supports and loads it is given, in order, and
    never raises: running the script against it shows what the script hands
    to the package. *)
Definition recorder : Engine :=
  mkEngine (list Support * list Load) (list Support * list Load) Empty_set
           (fun _ _ _ => Ok ([], []))
           (fun b s => Ok (fst b ++ [s], snd b))
           (fun b ld => Ok (fst b, snd b ++ [ld]))
           (fun b => Ok b).

(** A distributed load of zero width. *)
Definition zero_width (ld : Load) : Prop :=
  match ld with
  | UDLV _ (a, b) => a == b
  | _ => False
  end.

(** A support row with a missing cell, a load row with one of [kind],
    [magnitude], [x] missing. *)
Definition incomplete_support (row : SupportRow) : Prop :=
  sr_x row = None \/ sr_type row = None.

Definition incomplete_load (row : LoadRow) : Prop :=
  lr_kind row = None \/ lr_magnitude row = None \/ lr_x row = None.

(** [x] lies outside [[0, l]]. *)
Definition outside (l x : Q) : Prop := x < 0 \/ l < x.

(** A complete support row whose position is off the span. *)
Definition misplaced_support (l : Q) (row : SupportRow) : Prop :=
  exists x t, sr_x row = Some x /\ sr_type row = Some t /\ outside l x.

(** A complete load row of one of the dispatched kinds whose position is
    off the span, or, for a UDL with an end, whose end is off the span or
    before the start. *)
Definition misplaced_load (l : Q) (row : LoadRow) : Prop :=
  exists k mag x,
    lr_kind row = Some k /\ lr_magnitude row = Some mag /\ lr_x row = Some x
    /\ In k kind_options
    /\ (outside l x
        \/ (k = "UDL"
            /\ exists xe, lr_x_end row = Some xe /\ (outside l xe \/ xe < x))).

(** Every complete support row has a type the dropdown offers. *)
Definition known_types (df : list SupportRow) : Prop :=
  forall row x t,
    In row df -> sr_x row = Some x -> sr_type row = Some t ->
    In t support_options.

(** A load the reference engine accepts on a span of length [l]. *)
Definition well_placed (l : Q) (ld : Load) : Prop :=
  match ld with
  | PointLoadV _ x | PointTorque _ x => ~ outside l x
  | UDLV _ (a, b) => ~ outside l a /\ ~ outside l b /\ a <= b
  end.

(** What the reference engine returns for the form as it first opens: the
    fixed-fixed beam with its reactions (force and couple at [x = 0], force
    and couple at [x = 6]) and integration constants. *)
Definition fixed_fixed : Reference.Analysis :=
  Reference.mkAnalysis
    (Reference.mkModel 6 200e9 9.05e-6
       [mkSupport 0 (1, 1, 1)%Z; mkSupport 6 (1, 1, 1)%Z]
       [PointLoadV (-10000) (6 # 2)])
    [5000; 7500; 5000; -7500] 0 0.

(** The unknowns [us] solve the equation [row] (coefficients, then the
    right-hand side). *)
Definition satisfies (us : list Q) (row : list Q) : Prop :=
  Reference.residual row us == 0.

(** The bending stiffness of the form as it first opens. *)
Definition EI : Q := 200e9 * 9.05e-6.

(** [EI] times the deflection of that beam at distance [y] from the nearer
    support. *)
Definition half_span_cubic (y : Q) : Q := (2500 # 3) * (y * y * (y - (9 # 2))).

(** Case analysis on every singularity bracket of the goal. *)
Ltac split_brackets :=
  repeat match goal with
         | |- context [Qle_bool ?a ?b] =>
             let Hb := fresh "Hb" in
             destruct (Qle_bool a b) eqn:Hb;
             [ apply Qle_bool_iff in Hb
             | assert (b < a)
                 by (apply Qnot_le_lt; intros Hle;
                     apply Qle_bool_iff in Hle; congruence);
               clear Hb ]
         end.

(** Unfold the deflection of [fixed_fixed] down to its brackets. *)
Ltac unfold_deflection :=
  unfold Reference.deflection, fixed_fixed, Reference.actions, Reference.total,
    Reference.unknowns, Reference.deflection_of, Reference.bracket,
    Reference.pow, half_span_cubic, EI; simpl.

(** A pin at 0 and a roller at 4, as table rows and as the model the
    engine is given, and the analyses the reference engine returns for it
    under a uniform load over the span and under a torque at midspan. *)
Definition PIN_ROLLER : list SupportRow :=
  [ mkSupportRow (Some 0) (Some "Pin"); mkSupportRow (Some 4) (Some "Roller") ].

Definition pin_roller_model (loads : list Load) : Reference.Model :=
  Reference.mkModel 4 200e9 9.05e-6
    [mkSupport 0 (1, 1, 0)%Z; mkSupport 4 (0, 1, 0)%Z] loads.

Definition simply_supported : Reference.Analysis :=
  Reference.mkAnalysis (pin_roller_model [UDLV (-1000) (0, 4)])
                       [2000; 2000] (-8000 # 3) 0.

Definition twisted : Reference.Analysis :=
  Reference.mkAnalysis (pin_roller_model [PointTorque 1000 2])
                       [250; -250] (-500 # 3) 0.

(** What a run against the reference engine shows, from a fresh session. *)
Definition reference_run (f : Form) : Page (Reference.engine Reference.Reject) :=
  snd (script (Reference.engine Reference.Reject) empty_session f).

(** The supports table of a second submission that moves the right support
    off the 6 m span. *)
Definition SUPPORTS_OFF_SPAN : list SupportRow :=
  [ mkSupportRow (Some 0) (Some "Fixed");
    mkSupportRow (Some 7) (Some "Fixed") ].

(** ** More of the script: runs in a row, what the loops hand over, the
    reaction summary *)

(** Several runs of the script in a row, each in the session the previous
    one left: the session after the last, and the pages in order. *)
Fixpoint runs (eng : Engine) (ss : SessionState) (fs : list Form)
  : SessionState * list (Page eng) :=
  match fs with
  | [] => (ss, [])
  | f :: rest =>
      let (ss1, page) := script eng ss f in
      let (ss2, pages) := runs eng ss1 rest in
      (ss2, page :: pages)
  end.

(** The last submitted form of a sequence, if any. *)
Fixpoint last_submitted (fs : list Form) : option Form :=
  match fs with
  | [] => None
  | f :: rest =>
      match last_submitted rest with
      | Some g => Some g
      | None => if submitted f then Some f else None
      end
  end.

(** The support a row stands for, when it is complete and its type is a key
    of [SUPPORT_MAP]; the load a row stands for, when its magnitude and
    start are present and its kind is dispatched. *)
Definition handed_support (row : SupportRow) : option Support :=
  match sr_x row, sr_type row with
  | Some x, Some t =>
      match lookup t SUPPORT_MAP with
      | Some triple => Some (mkSupport x triple)
      | None => None
      end
  | _, _ => None
  end.

Definition handed_load (row : LoadRow) : option Load :=
  match lr_magnitude row, lr_x row with
  | Some mag, Some x0 => dispatch (lr_kind row) mag x0 (lr_x_end row)
  | _, _ => None
  end.

(** The values [f] gives on [l], in order. *)
Fixpoint collect {A B} (f : A -> option B) (l : list A) : list B :=
  match l with
  | [] => []
  | a :: rest =>
      match f a with
      | Some b => b :: collect f rest
      | None => collect f rest
      end
  end.

(** Calling [step] of the package on each element in turn, until one
    raises. *)
Fixpoint feed {X B A} (step : B -> A -> result X B) (b : B) (l : list A)
  : result (exn X) B :=
  match l with
  | [] => Ok b
  | a :: rest => b' <- from_engine (step b a) ;; feed step b' rest
  end.

(** Lines 86-90, and lines 86-103: the run up to the end of the supports
    loop, and up to the end of the loads loop. *)
Definition after_supports (eng : Engine) (l e i : Q) (supports : list SupportRow)
  : result (exn (engine_error eng)) (beam eng) :=
  b <- from_engine (Beam eng l e i) ;;
  add_support_rows eng b (dropna_supports supports).

Definition after_loads (eng : Engine) (l e i : Q) (supports : list SupportRow)
           (loads : list LoadRow) : result (exn (engine_error eng)) (beam eng) :=
  b <- after_supports eng l e i supports ;;
  add_load_rows eng b (dropna_loads loads).

(** The force and the start position a load carries. *)
Definition load_force (ld : Load) : Q :=
  match ld with
  | PointLoadV f _ | UDLV f _ | PointTorque f _ => f
  end.

Definition load_start (ld : Load) : Q :=
  match ld with
  | PointLoadV _ x | PointTorque _ x => x
  | UDLV _ (a, _) => a
  end.

(** [n / d] rounded to the nearest integer, a tie going to the even one. *)
Definition round_half_even (n : Z) (d : positive) : Z :=
  let q := (n / Zpos d)%Z in
  let r := (n mod Zpos d)%Z in
  match (2 * r ?= Zpos d)%Z with
  | Lt => q
  | Gt => (q + 1)%Z
  | Eq => if Z.even q then q else (q + 1)%Z
  end.

(** [round(x, 3)]: the nearest multiple of 1/1000, a tie going to the even
    one. *)
Definition round3 (x : Q) : Q :=
  round_half_even (Qnum x * 1000) (Qden x) # 1000.

Section Summary.

(** What [get_reaction] returns, and the text an f-string gives a float:
    both are the package's and Python's, and stay parameters. *)
Variable R : Type.
Variable str : Q -> string.

(** The key of a support in the summary: [f"{round(s._position, 3)} m"]. *)
Definition summary_key (s : Support) : string :=
  str (round3 (position s)) ++ " m".

(** [d[k] = v] on a dict kept in insertion order: an existing key keeps its
    place and takes the new value, a new key goes last. *)
Fixpoint dict_set (k : string) (v : R) (d : list (string * R))
  : list (string * R) :=
  match d with
  | [] => [(k, v)]
  | (k', v') :: rest =>
      if String.eqb k k' then (k', v) :: rest
      else (k', v') :: dict_set k v rest
  end.

(** [d.get(k)]. *)
Fixpoint dict_get (k : string) (d : list (string * R)) : option R :=
  match d with
  | [] => None
  | (k', v') :: rest => if String.eqb k k' then Some v' else dict_get k rest
  end.

(** Line 115: the dict comprehension over [enumerate(beam._supports)],
    from index [i] on, added to [d]. *)
Fixpoint summary_from (i : nat) (supports : list Support)
         (get_reaction : nat -> R) (d : list (string * R)) : list (string * R) :=
  match supports with
  | [] => d
  | s :: rest =>
      summary_from (S i) rest get_reaction
                   (dict_set (summary_key s) (get_reaction i) d)
  end.

(** Line 115: the reaction summary of the analysed beam. *)
Definition reaction_summary (supports : list Support) (get_reaction : nat -> R)
  : list (string * R) :=
  summary_from 0 supports get_reaction [].

End Summary.

Arguments dict_set {R} k v d.
Arguments dict_get {R} k d.
Arguments summary_from {R} str i supports get_reaction d.
Arguments reaction_summary {R} str supports get_reaction.

(** A formatting that tells 0 from every other number. *)
Definition zero_or_not (q : Q) : string :=
  if Qeq_bool q 0 then "0.0" else "6.0".

(** * Properties of the script *)

(** ** Missing values *)

Lemma dropna_supports_app (l1 l2 : list SupportRow) :
  dropna_supports (l1 ++ l2) = dropna_supports l1 ++ dropna_supports l2.
Proof. apply filter_app. Qed.

Lemma dropna_loads_app (l1 l2 : list LoadRow) :
  dropna_loads (l1 ++ l2) = dropna_loads l1 ++ dropna_loads l2.
Proof. apply filter_app. Qed.

Lemma dropna_supports_incomplete (row : SupportRow) (rest : list SupportRow) :
  incomplete_support row ->
  dropna_supports (row :: rest) = dropna_supports rest.
Proof.
  intros [H | H]; unfold dropna_supports; simpl; rewrite H; simpl.
  - reflexivity.
  - now rewrite andb_false_r.
Qed.

Lemma dropna_loads_incomplete (row : LoadRow) (rest : list LoadRow) :
  incomplete_load row ->
  dropna_loads (row :: rest) = dropna_loads rest.
Proof.
  intros [H | [H | H]]; unfold dropna_loads; simpl; rewrite H; simpl.
  - reflexivity.
  - now rewrite andb_false_r.
  - now rewrite andb_false_r.
Qed.

Lemma dropna_supports_complete (x : Q) (t : string) (rest : list SupportRow) :
  dropna_supports (mkSupportRow (Some x) (Some t) :: rest)
  = mkSupportRow (Some x) (Some t) :: dropna_supports rest.
Proof. reflexivity. Qed.

Lemma dropna_loads_complete (k : string) (mag x0 : Q) (xe : option Q)
      (rest : list LoadRow) :
  dropna_loads (mkLoadRow (Some k) (Some mag) (Some x0) xe :: rest)
  = mkLoadRow (Some k) (Some mag) (Some x0) xe :: dropna_loads rest.
Proof. reflexivity. Qed.

(** ** Supports *)

(** C2.  A support row of type Fixed, Pin or Roller at position [x] survives
    the missing-value filter, and the loop hands the package
    [Support(x, triple)] with the triple (1,1,1), (1,1,0) or (0,1,0)
    respectively, then goes on with the remaining rows on the beam the
    package returned. *)
Theorem support_rows_carry_restraints :
  forall (eng : Engine) (b : beam eng) (x : Q) (t : string)
         (triple : Z * Z * Z) (rest : list SupportRow),
    In (t, triple)
       [("Fixed", (1, 1, 1)%Z); ("Pin", (1, 1, 0)%Z); ("Roller", (0, 1, 0)%Z)] ->
    support_of_row eng (mkSupportRow (Some x) (Some t)) = Ok (mkSupport x triple)
    /\ add_support_rows eng b
         (dropna_supports (mkSupportRow (Some x) (Some t) :: rest))
       = (b' <- from_engine (add_supports eng b (mkSupport x triple)) ;;
          add_support_rows eng b' (dropna_supports rest)).
Proof.
  intros eng b x t triple rest Hin.
  assert (Hrow : support_of_row eng (mkSupportRow (Some x) (Some t))
                 = Ok (mkSupport x triple)).
  { simpl in Hin.
    destruct Hin as [H | [H | [H | []]]]; inversion H; subst; reflexivity. }
  split; [exact Hrow |].
  rewrite dropna_supports_complete.
  cbn [add_support_rows]. rewrite Hrow. reflexivity.
Qed.

(** A Pin row at x = 4 reaches the recorder as [Support(4, (1,1,0))]. *)
Lemma support_rows_carry_restraints_witness :
  In ("Pin", (1, 1, 0)%Z)
     [("Fixed", (1, 1, 1)%Z); ("Pin", (1, 1, 0)%Z); ("Roller", (0, 1, 0)%Z)]
  /\ add_support_rows recorder ([], [])
       (dropna_supports [mkSupportRow (Some 4) (Some "Pin")])
     = Ok ([mkSupport 4 (1, 1, 0)%Z], []).
Proof.
  split.
  - simpl; auto.
  - apply (proj2 (support_rows_carry_restraints
                    recorder ([], []) 4 "Pin" (1, 1, 0)%Z []
                    (or_intror (or_introl eq_refl)))).
Defined.

(** ** Loads *)

(** C4.  A load row of kind UDL whose [x_end] cell is missing is dispatched
    as [UDLV(mag, (x, x))]: the end defaults to the start, and that
    zero-width distributed load is what the package is given. *)
Theorem udl_end_defaults_to_start :
  forall (eng : Engine) (b : beam eng) (mag x0 : Q),
    dispatch (Some "UDL") mag x0 None = Some (UDLV mag (x0, x0))
    /\ zero_width (UDLV mag (x0, x0))
    /\ add_load_row eng b (mkLoadRow (Some "UDL") (Some mag) (Some x0) None)
       = from_engine (add_loads eng b (UDLV mag (x0, x0))).
Proof.
  intros eng b mag x0.
  split; [reflexivity | split; [simpl; reflexivity | reflexivity]].
Qed.

(** C3, as stated, fails: a UDL row from 2 to 2 is neither rejected nor
    turned into a point load by the script.  The load built for it is the
    zero-width [UDLV(-500, (2, 2))], and an engine that accepts what it is
    given receives exactly that. *)
Lemma zero_width_udl_reaches_engine :
  (exists ld, dispatch (Some "UDL") (-500) 2 (Some 2) = Some ld /\ zero_width ld)
  /\ snd (script recorder empty_session
            (mkForm 6 200e9 9.05e-6 DEFAULT_SUPPORTS
                    [mkLoadRow (Some "UDL") (Some (-500)) (Some 2) (Some 2)] true))
     = Results (eng := recorder)
               ([mkSupport 0 (1, 1, 1)%Z; mkSupport 6 (1, 1, 1)%Z],
                [UDLV (-500) (2, 2)]).
Proof.
  split.
  - exists (UDLV (-500) (2, 2)). split; reflexivity.
  - reflexivity.
Qed.

(** C3, amended.  A load row of kind UDL whose end equals its start is
    handed to the package unchanged, as the zero-width [UDLV(mag, (x, xe))]:
    the script itself neither rejects nor converts it. *)
Theorem degenerate_udl_passed_unchanged :
  forall (eng : Engine) (b : beam eng) (mag x0 xe : Q),
    xe == x0 ->
    dispatch (Some "UDL") mag x0 (Some xe) = Some (UDLV mag (x0, xe))
    /\ zero_width (UDLV mag (x0, xe))
    /\ add_load_row eng b (mkLoadRow (Some "UDL") (Some mag) (Some x0) (Some xe))
       = from_engine (add_loads eng b (UDLV mag (x0, xe))).
Proof.
  intros eng b mag x0 xe Heq.
  split; [reflexivity | split; [| reflexivity]].
  simpl. symmetry. exact Heq.
Qed.

(** A UDL row from 2 to 4/2 reaches the recorder with both ends as written. *)
Lemma degenerate_udl_passed_unchanged_witness :
  (4 # 2) == 2
  /\ add_load_row recorder ([], [])
       (mkLoadRow (Some "UDL") (Some (-500)) (Some 2) (Some (4 # 2)))
     = Ok ([], [UDLV (-500) (2, 4 # 2)]).
Proof.
  split.
  - reflexivity.
  - apply (proj2 (proj2 (degenerate_udl_passed_unchanged
                           recorder ([], []) (-500) 2 (4 # 2) (eq_refl : (4 # 2) == 2)))).
Defined.

(** C7, as stated, fails: the chain has no [else], so a complete row whose
    kind is none of the three labels reaches the dispatch and falls through
    every test.  It adds nothing to the beam and raises nothing. *)
Lemma unknown_kind_adds_nothing :
  dropna_loads [mkLoadRow (Some "Moment") (Some 100) (Some 2) None]
  = [mkLoadRow (Some "Moment") (Some 100) (Some 2) None]
  /\ dispatch (Some "Moment") 100 2 None = None
  /\ snd (script recorder empty_session
            (mkForm 6 200e9 9.05e-6 DEFAULT_SUPPORTS
                    [mkLoadRow (Some "Moment") (Some 100) (Some 2) None] true))
     = Results (eng := recorder)
               ([mkSupport 0 (1, 1, 1)%Z; mkSupport 6 (1, 1, 1)%Z], []).
Proof. repeat split. Qed.

Lemma kind_not_offered (k : string) :
  ~ In k kind_options ->
  String.eqb k "Point Load" = false
  /\ String.eqb k "UDL" = false
  /\ String.eqb k "Torque" = false.
Proof.
  intros Hk. repeat split; apply String.eqb_neq; intros ->; apply Hk; simpl; auto.
Qed.

(** C7, amended.  The dispatch covers the three kinds the editor offers:
    a row of kind Point Load, UDL or Torque that reaches it adds exactly one
    load to the beam.  A row of any other kind matches no branch: the beam
    is left as it was and nothing is raised. *)
Theorem dispatch_covers_offered_kinds :
  forall (eng : Engine) (b : beam eng) (k : string) (mag x0 : Q) (xe : option Q),
    (In k kind_options ->
     exists ld, dispatch (Some k) mag x0 xe = Some ld
                /\ add_load_row eng b (mkLoadRow (Some k) (Some mag) (Some x0) xe)
                   = from_engine (add_loads eng b ld))
    /\ (~ In k kind_options ->
        dispatch (Some k) mag x0 xe = None
        /\ add_load_row eng b (mkLoadRow (Some k) (Some mag) (Some x0) xe) = Ok b).
Proof.
  intros eng b k mag x0 xe. split.
  - intros [<- | [<- | [<- | []]]]; eexists; split; reflexivity.
  - intros Hk. destruct (kind_not_offered k Hk) as (H1 & H2 & H3).
    assert (Hd : dispatch (Some k) mag x0 xe = None).
    { unfold dispatch. now rewrite H1, H2, H3. }
    split; [exact Hd |].
    unfold add_load_row.
    cbn [float bind lr_kind lr_magnitude lr_x lr_x_end]. now rewrite Hd.
Qed.

(** A Torque row is dispatched. *)
Lemma dispatch_covers_offered_kinds_witness :
  In "Torque" kind_options
  /\ exists ld, dispatch (Some "Torque") 50 1 None = Some ld
                /\ add_load_row recorder ([], [])
                     (mkLoadRow (Some "Torque") (Some 50) (Some 1) None)
                   = from_engine (add_loads recorder ([], []) ld).
Proof.
  assert (Hin : In "Torque" kind_options) by (simpl; auto).
  split.
  - exact Hin.
  - exact (proj1 (dispatch_covers_offered_kinds recorder ([], []) "Torque" 50 1 None) Hin).
Defined.

Lemma filter_twice {A} (p : A -> bool) (l : list A) :
  filter p (filter p l) = filter p l.
Proof.
  induction l as [| a l IH]; [reflexivity |].
  simpl. destruct (p a) eqn:Hp; [| exact IH].
  simpl. now rewrite Hp, IH.
Qed.

(** A run depends on its tables only through their complete rows. *)
Lemma run_depends_on_complete_rows (eng : Engine) (ss : SessionState) (f : Form) :
  snd (script eng ss f)
  = snd (script eng ss
           (mkForm (length f) (E f) (I f)
                   (dropna_supports (supports_df f))
                   (dropna_loads (loads_df f))
                   (submitted f))).
Proof.
  unfold script, build_and_analyse, dropna_supports, dropna_loads; simpl.
  destruct (submitted f); [| reflexivity]. simpl.
  now rewrite !filter_twice.
Qed.



(** ** Session state *)

(** A submitted run caches the tables it was given before anything is
    built, whatever the outcome. *)
Lemma script_caches_submitted_tables (eng : Engine) (ss : SessionState) (f : Form) :
  submitted f = true ->
  fst (script eng ss f) = mkSession (Some (supports_df f)) (Some (loads_df f)).
Proof. intros H. unfold script. now rewrite H. Qed.

(** What a run shows depends on the form alone, not on the session. *)
Lemma page_independent_of_session (eng : Engine) (ss ss' : SessionState) (f : Form) :
  snd (script eng ss f) = snd (script eng ss' f).
Proof. unfold script. destruct (submitted f); reflexivity. Qed.

(** C9.  The cache does not keep the last good tables across a failed
    submission.  A first submission of the untouched form succeeds and
    caches the default tables; a second one, with the right support moved
    to x = 7 on the 6 m span, is refused by the engine, and by then lines
    82-83 have already replaced the cached supports table with the refused
    one, which is what the editor opens with on the next run. *)
Theorem failed_submission_overwrites_cache :
  let eng := Reference.engine Reference.Reject in
  let first := script eng empty_session (untouched_form empty_session) in
  let second := script eng (fst first)
                       (mkForm 6 200e9 9.05e-6 SUPPORTS_OFF_SPAN DEFAULT_LOADS true) in
  snd first = Results (eng := eng) fixed_fixed
  /\ supports_editor_data (fst first) = DEFAULT_SUPPORTS
  /\ snd second = Traceback (eng := eng) (EngineError Reference.InvalidPosition)
  /\ supports_editor_data (fst second) = SUPPORTS_OFF_SPAN
  /\ SUPPORTS_OFF_SPAN <> DEFAULT_SUPPORTS.
Proof.
  repeat split; try reflexivity.
  discriminate.
Qed.

(** * Properties of the script over the reference engine *)

Lemma Qle_bool_false (a b : Q) : Qle_bool a b = false -> b < a.
Proof.
  intros H. apply Qnot_le_lt. intros Hle.
  apply Qle_bool_iff in Hle. congruence.
Qed.

Lemma Qle_bool_true_of_le (a b : Q) : a <= b -> Qle_bool a b = true.
Proof. apply Qle_bool_iff. Qed.

Lemma Qle_bool_false_of_lt (a b : Q) : b < a -> Qle_bool a b = false.
Proof.
  intros H. destruct (Qle_bool a b) eqn:Hb; [| reflexivity].
  apply Qle_bool_iff in Hb. lra.
Qed.

(** C5.  A submitted form whose span, modulus or second moment of area is
    not positive is refused when the beam is constructed: the run ends in
    [InvalidGeometry], and no analysis is produced. *)
Theorem invalid_geometry_stops_the_run :
  forall (policy : Reference.Degenerate) (ss : SessionState) (f : Form),
    submitted f = true ->
    length f <= 0 \/ E f <= 0 \/ I f <= 0 ->
    Reference.new_beam (length f) (E f) (I f) = Raise Reference.InvalidGeometry
    /\ snd (script (Reference.engine policy) ss f)
       = Traceback (eng := Reference.engine policy)
                   (EngineError Reference.InvalidGeometry).
Proof.
  intros policy ss f Hsub Hbad.
  assert (Hnew : Reference.new_beam (length f) (E f) (I f)
                 = Raise Reference.InvalidGeometry).
  { unfold Reference.new_beam.
    destruct Hbad as [H | [H | H]]; apply Qle_bool_true_of_le in H; rewrite H.
    - reflexivity.
    - now rewrite orb_true_r.
    - now rewrite orb_true_r. }
  split; [exact Hnew |].
  unfold script, build_and_analyse. rewrite Hsub.
  cbn [snd Beam Reference.engine]. now rewrite Hnew.
Qed.

(** The default tables with E = 0. *)
Lemma invalid_geometry_stops_the_run_witness :
  (6 <= 0 \/ 0 <= 0 \/ 9.05e-6 <= 0)
  /\ snd (script (Reference.engine Reference.Convert) empty_session
            (mkForm 6 0 9.05e-6 DEFAULT_SUPPORTS DEFAULT_LOADS true))
     = Traceback (eng := Reference.engine Reference.Convert)
                 (EngineError Reference.InvalidGeometry).
Proof.
  assert (H : 6 <= 0 \/ 0 <= 0 \/ 9.05e-6 <= 0) by (right; left; apply Qle_refl).
  split.
  - exact H.
  - exact (proj2 (invalid_geometry_stops_the_run
                    Reference.Convert empty_session
                    (mkForm 6 0 9.05e-6 DEFAULT_SUPPORTS DEFAULT_LOADS true)
                    eq_refl H)).
Defined.

(** ** Positions *)

Lemma on_span_iff (m : Reference.Model) (x : Q) :
  Reference.on_span m x = true <-> ~ outside (Reference.m_length m) x.
Proof.
  unfold Reference.on_span, outside. split.
  - intros H. apply andb_true_iff in H. destruct H as [H0 Hl].
    apply Qle_bool_iff in H0. apply Qle_bool_iff in Hl. lra.
  - intros H. apply andb_true_iff. split; apply Qle_bool_iff.
    + apply Qnot_lt_le. intros Hlt. apply H. now left.
    + apply Qnot_lt_le. intros Hlt. apply H. now right.
Qed.

Lemma lookup_offered (t : string) :
  In t support_options -> exists triple, lookup t SUPPORT_MAP = Some triple.
Proof.
  simpl. intros [<- | [<- | [<- | []]]]; eexists; reflexivity.
Qed.

Lemma known_types_tail (row : SupportRow) (rest : list SupportRow) :
  known_types (row :: rest) -> known_types rest.
Proof. intros H r x t Hin. apply H. now right. Qed.

Lemma support_row_shape (row : SupportRow) :
  incomplete_support row \/ exists x t, row = mkSupportRow (Some x) (Some t).
Proof.
  destruct row as [[x |] [t |]].
  - right. now exists x, t.
  - left. now right.
  - left. now left.
  - left. now left.
Qed.

Lemma load_row_shape (row : LoadRow) :
  incomplete_load row
  \/ exists k mag x xe, row = mkLoadRow (Some k) (Some mag) (Some x) xe.
Proof.
  destruct row as [[k |] [mag |] [x |] xe];
    try (right; now exists k, mag, x, xe);
    left; unfold incomplete_load; cbn; tauto.
Qed.

Lemma incomplete_support_not_misplaced (l : Q) (row : SupportRow) :
  incomplete_support row -> ~ misplaced_support l row.
Proof.
  intros [H | H] (x & t & Hx & Ht & _); congruence.
Qed.

Lemma incomplete_load_not_misplaced (l : Q) (row : LoadRow) :
  incomplete_load row -> ~ misplaced_load l row.
Proof.
  intros [H | [H | H]] (k & mag & x & Hk & Hm & Hx & _); congruence.
Qed.

Lemma not_Exists_cons {A} (P : A -> Prop) (a : A) (l : list A) :
  ~ P a -> ~ Exists P l -> ~ Exists P (a :: l).
Proof. intros Ha Hl H. inversion H; subst; tauto. Qed.

(** The supports loop over the reference engine either adds every complete
    row, none of them off the span, or stops with [InvalidPosition]. *)
Lemma supports_loop (policy : Reference.Degenerate) :
  forall (rows : list SupportRow) (m : Reference.Model),
    known_types rows ->
    match add_support_rows (Reference.engine policy) m (dropna_supports rows) with
    | Ok m' =>
        Reference.m_length m' = Reference.m_length m
        /\ ~ Exists (misplaced_support (Reference.m_length m)) rows
    | Raise e => e = EngineError Reference.InvalidPosition
    end.
Proof.
  induction rows as [| row rest IH]; intros m Hk.
  - simpl. split; [reflexivity | intros H; inversion H].
  - pose proof (known_types_tail _ _ Hk) as Hrest.
    destruct (support_row_shape row) as [Hinc | (x & t & ->)].
    + rewrite dropna_supports_incomplete by exact Hinc.
      specialize (IH m Hrest).
      destruct (add_support_rows (Reference.engine policy) m (dropna_supports rest))
        as [m' | e]; [| exact IH].
      destruct IH as [Hlen Hno]. split; [exact Hlen |].
      apply not_Exists_cons; [now apply incomplete_support_not_misplaced | exact Hno].
    + rewrite dropna_supports_complete. cbn [add_support_rows].
      destruct (lookup_offered t (Hk _ x t (or_introl eq_refl) eq_refl eq_refl))
        as [triple Ht].
      unfold support_of_row.
      cbn [float bind sr_x sr_type SUPPORT_MAP_getitem]. rewrite Ht.
      cbn [bind add_supports Reference.engine from_engine].
      unfold Reference.add_support. cbn [position].
      destruct (Reference.on_span m x) eqn:Hs; [| reflexivity].
      cbn [from_engine bind].
      match goal with
      | |- context [add_support_rows _ ?m1 _] =>
          specialize (IH m1 Hrest);
          destruct (add_support_rows (Reference.engine policy) m1 (dropna_supports rest))
            as [m' | e]; [| exact IH]
      end.
      cbn [Reference.m_length] in IH. destruct IH as [Hlen Hno].
      split; [exact Hlen |].
      apply not_Exists_cons; [| exact Hno].
      intros (x' & t' & Hx & _ & Hout).
      cbn in Hx. inversion Hx; subst x'.
      now apply (proj1 (on_span_iff m x) Hs).
Qed.

Lemma add_load_cases (policy : Reference.Degenerate) (m : Reference.Model) (ld : Load) :
  match Reference.add_load policy m ld with
  | Ok m' =>
      Reference.m_length m' = Reference.m_length m
      /\ well_placed (Reference.m_length m) ld
  | Raise e => e = Reference.InvalidPosition
  end.
Proof.
  destruct ld as [f x | q [a b] | t x]; unfold Reference.add_load.
  - destruct (Reference.on_span m x) eqn:Hs; [| reflexivity].
    split; [reflexivity | now apply on_span_iff].
  - destruct (Reference.on_span m a) eqn:Ha; [| reflexivity].
    destruct (Reference.on_span m b) eqn:Hb; [| reflexivity].
    cbn [andb negb].
    destruct (Qle_bool a b) eqn:Hab; [| reflexivity].
    cbn [negb].
    apply on_span_iff in Ha. apply on_span_iff in Hb. apply Qle_bool_iff in Hab.
    destruct (Qeq_bool a b); [destruct policy |]; try reflexivity;
      (split; [reflexivity | now repeat split]).
  - destruct (Reference.on_span m x) eqn:Hs; [| reflexivity].
    split; [reflexivity | now apply on_span_iff].
Qed.

(** One complete load row over the reference engine: the beam keeps its
    length and the row was not misplaced, or the engine refused it. *)
Lemma load_row_cases (policy : Reference.Degenerate) (m : Reference.Model)
      (k : string) (mag x : Q) (xe : option Q) :
  match add_load_row (Reference.engine policy) m
                     (mkLoadRow (Some k) (Some mag) (Some x) xe) with
  | Ok m' =>
      Reference.m_length m' = Reference.m_length m
      /\ ~ misplaced_load (Reference.m_length m)
                          (mkLoadRow (Some k) (Some mag) (Some x) xe)
  | Raise e => e = EngineError Reference.InvalidPosition
  end.
Proof.
  unfold add_load_row.
  cbn [float bind lr_kind lr_magnitude lr_x lr_x_end].
  destruct (dispatch (Some k) mag x xe) as [ld |] eqn:Hd.
  - cbn [add_loads Reference.engine].
    pose proof (add_load_cases policy m ld) as Hc.
    destruct (Reference.add_load policy m ld) as [m' | e]; cbn [from_engine].
    + destruct Hc as [Hlen Hwp]. split; [exact Hlen |].
      intros (k' & mag' & x' & Hk & _ & Hx & _ & Hbad).
      cbn in Hk, Hx. inversion Hk; inversion Hx; subst k' x'.
      unfold dispatch in Hd.
      destruct (String.eqb k "Point Load") eqn:E1.
      { inversion Hd; subst ld. apply String.eqb_eq in E1. cbn in Hwp.
        destruct Hbad as [Ho | [Hu _]]; [tauto | congruence]. }
      destruct (String.eqb k "UDL") eqn:E2.
      { inversion Hd; subst ld. cbn in Hwp. destruct Hwp as (Ha & Hb & Hab).
        destruct Hbad as [Ho | [_ (xe0 & Hxe & Hbad)]]; [tauto |].
        cbn in Hxe. subst xe. destruct Hbad as [Ho | Hlt]; [tauto | lra]. }
      destruct (String.eqb k "Torque") eqn:E3; [| discriminate].
      inversion Hd; subst ld. apply String.eqb_eq in E3. cbn in Hwp.
      destruct Hbad as [Ho | [Hu _]]; [tauto | congruence].
    + now subst e.
  - split; [reflexivity |].
    intros (k' & mag' & x' & Hk & _ & _ & Hin & _).
    cbn in Hk. inversion Hk; subst k'.
    simpl in Hin. destruct Hin as [<- | [<- | [<- | []]]]; discriminate Hd.
Qed.

Lemma loads_loop (policy : Reference.Degenerate) :
  forall (rows : list LoadRow) (m : Reference.Model),
    match add_load_rows (Reference.engine policy) m (dropna_loads rows) with
    | Ok m' =>
        Reference.m_length m' = Reference.m_length m
        /\ ~ Exists (misplaced_load (Reference.m_length m)) rows
    | Raise e => e = EngineError Reference.InvalidPosition
    end.
Proof.
  induction rows as [| row rest IH]; intros m.
  - simpl. split; [reflexivity | intros H; inversion H].
  - destruct (load_row_shape row) as [Hinc | (k & mag & x & xe & ->)].
    + rewrite dropna_loads_incomplete by exact Hinc.
      specialize (IH m).
      destruct (add_load_rows (Reference.engine policy) m (dropna_loads rest))
        as [m' | e]; [| exact IH].
      destruct IH as [Hlen Hno]. split; [exact Hlen |].
      apply not_Exists_cons; [now apply incomplete_load_not_misplaced | exact Hno].
    + rewrite dropna_loads_complete. cbn [add_load_rows].
      pose proof (load_row_cases policy m k mag x xe) as Hrow.
      destruct (add_load_row (Reference.engine policy) m
                             (mkLoadRow (Some k) (Some mag) (Some x) xe))
        as [m1 | e]; cbn [bind]; [| exact Hrow].
      destruct Hrow as [Hlen1 Hok].
      specialize (IH m1).
      destruct (add_load_rows (Reference.engine policy) m1 (dropna_loads rest))
        as [m' | e]; [| exact IH].
      destruct IH as [Hlen Hno]. rewrite Hlen1 in Hlen, Hno.
      split; [exact Hlen |].
      apply not_Exists_cons; [exact Hok | exact Hno].
Qed.

(** C6, as stated, fails: a support row at x = 100 on the 6 m span whose
    type cell is empty, and a load row at x = -5 whose magnitude is empty,
    are dropped by the missing-value filter before the engine sees them.
    Nothing is refused, and the analysis is that of the default beam. *)
Lemma misplaced_rows_with_missing_cells_pass :
  snd (script (Reference.engine Reference.Reject) empty_session
         (mkForm 6 200e9 9.05e-6
                 (DEFAULT_SUPPORTS ++ [mkSupportRow (Some 100) None])
                 (DEFAULT_LOADS
                  ++ [mkLoadRow (Some "Point Load") None (Some (-5)) None])
                 true))
  = Results (eng := Reference.engine Reference.Reject) fixed_fixed.
Proof. reflexivity. Qed.

(** C6, amended.  On a form with valid geometry whose complete support rows
    all have a type the dropdown offers, a complete support row off the
    span, or a complete load row of a dispatched kind that is off the span
    or is a UDL whose end is off the span or before its start, makes the
    run end in [InvalidPosition]: no analysis is produced. *)
Theorem misplaced_rows_are_refused :
  forall (policy : Reference.Degenerate) (ss : SessionState) (f : Form),
    submitted f = true ->
    0 < length f -> 0 < E f -> 0 < I f ->
    known_types (supports_df f) ->
    Exists (misplaced_support (length f)) (supports_df f)
    \/ Exists (misplaced_load (length f)) (loads_df f) ->
    snd (script (Reference.engine policy) ss f)
    = Traceback (eng := Reference.engine policy)
                (EngineError Reference.InvalidPosition).
Proof.
  intros policy ss f Hsub Hl He Hi Hk Hbad.
  unfold script, build_and_analyse. rewrite Hsub.
  cbn [snd Beam Reference.engine]. unfold Reference.new_beam.
  rewrite (Qle_bool_false_of_lt _ _ Hl), (Qle_bool_false_of_lt _ _ He),
    (Qle_bool_false_of_lt _ _ Hi).
  cbn [orb from_engine bind].
  pose proof (supports_loop policy (supports_df f)
                (Reference.mkModel (length f) (E f) (I f) [] []) Hk) as Hs.
  cbn [Reference.engine] in Hs.
  destruct (add_support_rows _ _ _) as [m1 | e]; cbn [bind].
  2: { now subst e. }
  cbn [Reference.m_length] in Hs. destruct Hs as [Hlen1 Hno1].
  pose proof (loads_loop policy (loads_df f) m1) as Hld.
  destruct (add_load_rows _ _ _) as [m2 | e]; cbn [bind].
  2: { now subst e. }
  destruct Hld as [_ Hno2]. rewrite Hlen1 in Hno2.
  exfalso. tauto.
Qed.

(** The default form with the right support moved to x = 7. *)
Lemma misplaced_rows_are_refused_witness :
  known_types SUPPORTS_OFF_SPAN
  /\ Exists (misplaced_support 6) SUPPORTS_OFF_SPAN
  /\ snd (script (Reference.engine Reference.Convert) empty_session
            (mkForm 6 200e9 9.05e-6 SUPPORTS_OFF_SPAN DEFAULT_LOADS true))
     = Traceback (eng := Reference.engine Reference.Convert)
                 (EngineError Reference.InvalidPosition).
Proof.
  assert (Hk : known_types SUPPORTS_OFF_SPAN).
  { intros row x t [<- | [<- | []]] _ Ht; inversion Ht; simpl; auto. }
  assert (Hex : Exists (misplaced_support 6) SUPPORTS_OFF_SPAN).
  { apply Exists_cons_tl, Exists_cons_hd.
    exists 7, "Fixed". repeat split. right. reflexivity. }
  split; [exact Hk | split; [exact Hex |]].
  exact (misplaced_rows_are_refused
           Reference.Convert empty_session
           (mkForm 6 200e9 9.05e-6 SUPPORTS_OFF_SPAN DEFAULT_LOADS true)
           eq_refl eq_refl eq_refl eq_refl Hk (or_introl Hex)).
Defined.

(** ** The reference engine on the scenarios of the specification

    Section 8 of the specification gives the engine scenarios besides the
    default beam; the reference engine meets them. *)

(** Scenario B: a simply supported beam under a uniform load over the full
    span; each reaction is half the total load and the midspan moment is
    q L^2 / 8. *)
Example simply_supported_udl :
  reference_run (mkForm 4 200e9 9.05e-6 PIN_ROLLER
                 [mkLoadRow (Some "UDL") (Some (-1000)) (Some 0) (Some 4)] true)
  = Results (eng := Reference.engine Reference.Reject) simply_supported
  /\ Reference.get_reaction simply_supported 0 = Reference.mkReaction (Some 2000) None
  /\ Reference.get_reaction simply_supported 1 = Reference.mkReaction (Some 2000) None
  /\ Reference.moment simply_supported 2 == 1000 * 4 * 4 / 8.
Proof. repeat split. Qed.

(** Scenario C: a torque only; the vertical reactions cancel and their
    couple balances the torque. *)
Example torque_only :
  reference_run (mkForm 4 200e9 9.05e-6 PIN_ROLLER
                 [mkLoadRow (Some "Torque") (Some 1000) (Some 2) None] true)
  = Results (eng := Reference.engine Reference.Reject) twisted
  /\ Reference.get_reaction twisted 0 = Reference.mkReaction (Some 250) None
  /\ Reference.get_reaction twisted 1 = Reference.mkReaction (Some (-250)) None
  /\ 250 + -250 == 0
  /\ -250 * 4 + 1000 == 0.
Proof. repeat split. Qed.

(** Boundary: one roller alone is unstable. *)
Example one_roller_is_unstable :
  reference_run (mkForm 4 200e9 9.05e-6
                        [mkSupportRow (Some 0) (Some "Roller")] [] true)
  = Traceback (eng := Reference.engine Reference.Reject)
              (EngineError Reference.UnstableStructure).
Proof. reflexivity. Qed.

(** Boundary: two pins at the same position give a singular system. *)
Example coincident_pins_are_singular :
  reference_run (mkForm 4 200e9 9.05e-6
                        [ mkSupportRow (Some 1) (Some "Pin");
                          mkSupportRow (Some 1) (Some "Pin") ] [] true)
  = Traceback (eng := Reference.engine Reference.Reject)
              (EngineError Reference.SingularSystem).
Proof. reflexivity. Qed.

(** ** The default beam *)

Lemma sq_nonneg (a : Q) : 0 <= a * a.
Proof. nra. Qed.

Lemma half_span_cubic_bounds (y : Q) :
  0 <= y -> y <= 3 ->
  -11250 <= half_span_cubic y /\ half_span_cubic y <= 0.
Proof.
  intros H0 H3. unfold half_span_cubic.
  assert (Hsq : 0 <= (y - 3) * (y - 3) * (y + (3 # 2))).
  { apply Qmult_le_0_compat; [apply sq_nonneg | lra]. }
  assert (Hup : 0 <= y * y * ((9 # 2) - y)).
  { apply Qmult_le_0_compat; [apply sq_nonneg | lra]. }
  split; lra.
Qed.

Lemma fixed_fixed_deflection_left (x : Q) :
  0 <= x -> x <= 3 ->
  Reference.deflection fixed_fixed x == half_span_cubic x / EI.
Proof.
  intros H0 H3. unfold_deflection.
  split_brackets; try lra.
  - assert (Hx : x == 3) by lra. rewrite Hx. reflexivity.
  - apply Qmult_comp; [field | reflexivity].
Qed.

Lemma fixed_fixed_deflection_right (x : Q) :
  3 <= x -> x <= 6 ->
  Reference.deflection fixed_fixed x == half_span_cubic (6 - x) / EI.
Proof.
  intros H3 H6. unfold_deflection.
  split_brackets; try lra.
  - assert (Hx : x == 6) by lra. rewrite Hx. reflexivity.
  - apply Qmult_comp; [field | reflexivity].
Qed.

Lemma EI_positive : 0 < EI.
Proof. reflexivity. Qed.

Lemma Qdiv_le_compat_r (a b c : Q) : 0 < c -> a <= b -> a / c <= b / c.
Proof.
  intros Hc Hab. apply Qmult_le_compat_r; [exact Hab |].
  apply Qlt_le_weak. now apply Qinv_lt_0_compat.
Qed.

Lemma fixed_fixed_midspan : Reference.deflection fixed_fixed 3 == -11250 / EI.
Proof. reflexivity. Qed.

(** The beam sags everywhere, and nowhere more than at midspan. *)
Lemma fixed_fixed_deflection_bounds (x : Q) :
  0 <= x -> x <= 6 ->
  Reference.deflection fixed_fixed 3 <= Reference.deflection fixed_fixed x
  /\ Reference.deflection fixed_fixed x <= 0.
Proof.
  intros H0 H6. rewrite fixed_fixed_midspan.
  assert (Hz : 0 == 0 / EI) by reflexivity.
  destruct (Qlt_le_dec x 3) as [Hlt | Hge].
  - rewrite fixed_fixed_deflection_left by lra.
    destruct (half_span_cubic_bounds x) as [Hlo Hhi]; [lra | lra |].
    split; [| rewrite Hz]; apply Qdiv_le_compat_r; auto using EI_positive.
  - rewrite fixed_fixed_deflection_right by lra.
    destruct (half_span_cubic_bounds (6 - x)) as [Hlo Hhi]; [lra | lra |].
    split; [| rewrite Hz]; apply Qdiv_le_compat_r; auto using EI_positive.
Qed.

(** The values of [fixed_fixed] solve the equilibrium and compatibility
    equations assembled for its model, and nothing else does: the reactions
    do not depend on how the system is solved. *)
Lemma default_equations_solved :
  Forall (satisfies (Reference.a_values fixed_fixed
                     ++ [Reference.a_c1 fixed_fixed; Reference.a_c2 fixed_fixed]))
         (Reference.assemble (Reference.a_model fixed_fixed)).
Proof. repeat constructor. Qed.

Lemma default_equations_have_one_solution (ry0 m0 ry6 m6 c1 c2 : Q) :
  Forall (satisfies [ry0; m0; ry6; m6; c1; c2])
         (Reference.assemble (Reference.a_model fixed_fixed)) ->
  ry0 == 5000 /\ m0 == 7500 /\ ry6 == 5000 /\ m6 == -7500 /\ c1 == 0 /\ c2 == 0.
Proof.
  intros H.
  unfold Reference.assemble, Reference.compatibility, Reference.equation,
    Reference.unknowns, Reference.components in H.
  cbn [fixed_fixed Reference.a_model Reference.m_supports Reference.m_loads
       flat_map map app Reference.Uy Reference.Rz fixed position
       Reference.restrained Z.eqb negb] in H.
  repeat match goal with
         | H : Forall _ (_ :: _) |- _ => inversion H; clear H; subst
         | H : Forall _ [] |- _ => clear H
         end.
  unfold satisfies, Reference.residual, Reference.bracket, Reference.pow, Qdiv in *.
  cbn [Qle_bool Qnum Qden Z.leb Z.mul Pos.mul Z.compare Pos.compare
       Pos.compare_cont Qinv Qminus Qplus Qopp Z.add Z.opp Pos.add] in *.
  repeat split; lra.
Qed.

(** C1.  Submitting the form as it first opens (span 6, E = 200e9,
    I = 9.05e-6, fixed supports at 0 and 6, a point load of -10000 at 3)
    gives an analysis in which each support carries 5000 upward, the two
    moment reactions are 7500 and -7500 (equal in magnitude, so their
    magnitudes differ by zero), the deflection at midspan is
    -w L^3 / (192 E I) for w = 10000, and no point of the span deflects more
    than midspan does. *)
Theorem default_beam_analysis :
  forall (policy : Reference.Degenerate),
    exists r : Reference.Analysis,
      snd (script (Reference.engine policy) empty_session
                  (untouched_form empty_session))
      = Results (eng := Reference.engine policy) r
      /\ Reference.get_reaction r 0 = Reference.mkReaction (Some 5000) (Some 7500)
      /\ Reference.get_reaction r 1 = Reference.mkReaction (Some 5000) (Some (-7500))
      /\ (exists m0 m6,
            Reference.Mz (Reference.get_reaction r 0) = Some m0
            /\ Reference.Mz (Reference.get_reaction r 1) = Some m6
            /\ Qabs m0 - Qabs m6 == 0)
      /\ Reference.deflection r (DEFAULT_L / 2)
         == - (10000 * DEFAULT_L ^ 3 / (192 * (200e9 * 9.05e-6)))
      /\ forall x, 0 <= x -> x <= DEFAULT_L ->
                   Qabs (Reference.deflection r x)
                   <= Qabs (Reference.deflection r (DEFAULT_L / 2)).
Proof.
  intros policy. exists fixed_fixed.
  do 3 (split; [reflexivity |]).
  split; [exists 7500, (-7500); repeat split |].
  split; [reflexivity |].
  intros x H0 H6.
  assert (Hmid : Reference.deflection fixed_fixed (DEFAULT_L / 2)
                 == Reference.deflection fixed_fixed 3) by reflexivity.
  rewrite Hmid.
  destruct (fixed_fixed_deflection_bounds x H0 H6) as [Hlo Hhi].
  assert (H3 : Reference.deflection fixed_fixed 3 <= 0) by lra.
  rewrite (Qabs_neg _ Hhi), (Qabs_neg _ H3). lra.
Qed.

(** * More properties of the script *)

(** ** The support map and the type dropdown *)

Lemma lookup_in_keys (k : string) (d : list (string * (Z * Z * Z))) :
  In k (map fst d) <-> exists v, lookup k d = Some v.
Proof.
  induction d as [| [k' v'] d IH]; simpl.
  - split; [tauto | intros [v Hv]; discriminate].
  - destruct (String.eqb_spec k k') as [-> | Hne].
    + split; [intros _; now exists v' | auto].
    + rewrite <- IH. split; [intros [H | H]; [congruence | exact H] | auto].
Qed.

Lemma getitem_cases (X : Type) (key : option string) :
  match @SUPPORT_MAP_getitem X key with
  | Ok triple =>
      exists t, key = Some t /\ In t support_options /\ In (t, triple) SUPPORT_MAP
  | Raise e =>
      e = KeyError key /\ forall t, key = Some t -> ~ In t support_options
  end.
Proof.
  destruct key as [t |]; unfold SUPPORT_MAP_getitem.
  - destruct (lookup t SUPPORT_MAP) as [triple |] eqn:Hl.
    + exists t. split; [reflexivity |]. split.
      * apply lookup_in_keys. now exists triple.
      * simpl in Hl.
        repeat match type of Hl with
               | (if String.eqb ?a ?b then _ else _) = _ =>
                   destruct (String.eqb_spec a b) as [-> | _];
                   [inversion Hl; subst; simpl; tauto |]
               end.
        discriminate.
    + split; [reflexivity |]. intros t' Ht Hin. inversion Ht; subst t'.
      apply lookup_in_keys in Hin. destruct Hin as [v Hv]. congruence.
  - split; [reflexivity | intros t Ht; discriminate].
Qed.

(** X1.  [SUPPORT_MAP[key]] returns a tuple exactly when the map pairs the
    key with it, so every entry of the map is found under its key; it
    succeeds exactly on the options of the type dropdown
    ([list(SUPPORT_MAP)]), and on any other key, and on a missing one, it
    raises [KeyError] with that key and nothing else. *)
Theorem lookup_succeeds_on_dropdown_options :
  forall (X : Type) (key : option string),
    (forall triple,
        @SUPPORT_MAP_getitem X key = Ok triple
        <-> exists t, key = Some t /\ In (t, triple) SUPPORT_MAP)
    /\ ((exists triple, @SUPPORT_MAP_getitem X key = Ok triple)
        <-> exists t, key = Some t /\ In t support_options)
    /\ (forall e, @SUPPORT_MAP_getitem X key = Raise e -> e = KeyError key).
Proof.
  intros X key.
  pose proof (getitem_cases X key) as Hc.
  split; [| split].
  - intros triple. split.
    + intros H. rewrite H in Hc. destruct Hc as (t & Hk & _ & Hin). now exists t.
    + intros (t & -> & Hin). simpl in Hin.
      destruct Hin as [H | [H | [H | []]]]; inversion H; subst; reflexivity.
  - split.
    + intros [triple H]. rewrite H in Hc. destruct Hc as (t & Hk & Hin & _).
      now exists t.
    + intros (t & -> & Hin).
      destruct (@SUPPORT_MAP_getitem X (Some t)) as [triple | e];
        [now exists triple |].
      destruct Hc as [_ Hno]. exfalso. now apply (Hno t).
  - intros e H. rewrite H in Hc. tauto.
Qed.

(** ** Exceptions *)

Lemma dropna_supports_In (row : SupportRow) (df : list SupportRow) :
  In row (dropna_supports df) <->
  In row df /\ exists x t, sr_x row = Some x /\ sr_type row = Some t.
Proof.
  unfold dropna_supports. rewrite filter_In.
  destruct row as [[x |] [t |]]; simpl; split; intros [H1 H2];
    (split; [exact H1 |]); try discriminate; try reflexivity.
  - now exists x, t.
  - destruct H2 as (x' & t' & _ & Ht). discriminate.
  - destruct H2 as (x' & t' & Hx & _). discriminate.
  - destruct H2 as (x' & t' & Hx & _). discriminate.
Qed.

Lemma dropna_loads_In (row : LoadRow) (df : list LoadRow) :
  In row (dropna_loads df) <->
  In row df
  /\ exists k mag x, lr_kind row = Some k /\ lr_magnitude row = Some mag
                     /\ lr_x row = Some x.
Proof.
  unfold dropna_loads. rewrite filter_In.
  destruct row as [[k |] [mag |] [x |] xe]; simpl; split; intros [H1 H2];
    (split; [exact H1 |]); try discriminate; try reflexivity;
    try (destruct H2 as (k' & mag' & x' & Hk & Hm & Hx); discriminate).
  now exists k, mag, x.
Qed.

(** What the supports loop can raise on rows that are all complete. *)
Lemma supports_loop_raises (eng : Engine) :
  forall (rows : list SupportRow) (b : beam eng) (e : exn (engine_error eng)),
    (forall row, In row rows -> exists x t, sr_x row = Some x /\ sr_type row = Some t) ->
    add_support_rows eng b rows = Raise e ->
    (exists x, e = EngineError x)
    \/ (exists row x t, In row rows /\ sr_x row = Some x /\ sr_type row = Some t
                        /\ e = KeyError (Some t) /\ ~ In t support_options).
Proof.
  induction rows as [| row rest IH]; intros b e Hc Hr; [discriminate |].
  destruct (Hc row (or_introl eq_refl)) as (x & t & Hx & Ht).
  cbn [add_support_rows] in Hr. unfold support_of_row in Hr.
  rewrite Hx, Ht in Hr. cbn [float bind] in Hr.
  pose proof (getitem_cases (engine_error eng) (Some t)) as Hk.
  destruct (SUPPORT_MAP_getitem (Some t)) as [triple | e'].
  - cbn [bind] in Hr.
    destruct (add_supports eng b (mkSupport x triple)) as [b' | x'];
      cbn [from_engine bind] in Hr.
    + destruct (IH b' e) as [H | (r & x1 & t1 & Hin & H)]; auto.
      * intros r Hin. apply Hc. now right.
      * right. exists r, x1, t1. split; [now right | exact H].
    + left. exists x'. congruence.
  - cbn [bind] in Hr. destruct Hk as [-> Hno]. inversion Hr; subst e.
    right. exists row, x, t. repeat split; auto. now left.
Qed.

(** What the loads loop can raise on rows with magnitude and start. *)
Lemma loads_loop_raises (eng : Engine) :
  forall (rows : list LoadRow) (b : beam eng) (e : exn (engine_error eng)),
    (forall row, In row rows ->
                 exists mag x, lr_magnitude row = Some mag /\ lr_x row = Some x) ->
    add_load_rows eng b rows = Raise e ->
    exists x, e = EngineError x.
Proof.
  induction rows as [| row rest IH]; intros b e Hc Hr; [discriminate |].
  destruct (Hc row (or_introl eq_refl)) as (mag & x & Hm & Hx).
  cbn [add_load_rows] in Hr. unfold add_load_row in Hr.
  rewrite Hm, Hx in Hr. cbn [float bind] in Hr.
  destruct (dispatch (lr_kind row) mag x (lr_x_end row)) as [ld |].
  - destruct (add_loads eng b ld) as [b' | x']; cbn [from_engine bind] in Hr.
    + apply (IH b' e); [| exact Hr]. intros r Hin. apply Hc. now right.
    + exists x'. congruence.
  - cbn [bind] in Hr. apply (IH b e); [| exact Hr].
    intros r Hin. apply Hc. now right.
Qed.

(** X2.  Whatever the package does, an exception that ends a run is either
    one the package raised, or the [KeyError] of a support row with no
    missing cell whose type is not a key of [SUPPORT_MAP], carrying that
    type.  In particular [float] is never applied to a missing cell: the
    two [dropna] filters see to it that no run ends in [TypeError]. *)
Theorem script_exceptions :
  forall (eng : Engine) (ss : SessionState) (f : Form)
         (e : exn (engine_error eng)),
    snd (script eng ss f) = Traceback e ->
    e <> TypeError
    /\ ((exists x, e = EngineError x)
        \/ (exists row x t,
               In row (supports_df f) /\ sr_x row = Some x /\ sr_type row = Some t
               /\ e = KeyError (Some t) /\ ~ In t support_options)).
Proof.
  intros eng ss f e Hpage.
  assert (Hcases : (exists x, e = EngineError x)
        \/ (exists row x t,
               In row (supports_df f) /\ sr_x row = Some x /\ sr_type row = Some t
               /\ e = KeyError (Some t) /\ ~ In t support_options));
    [| split; [| exact Hcases];
       destruct Hcases as [[x ->] | (row & x & t & _ & _ & _ & -> & _)]; discriminate].
  revert Hpage. unfold script.
  destruct (submitted f); [| discriminate]. cbn [snd].
  destruct (build_and_analyse eng f) as [r | e'] eqn:Hb; [discriminate |].
  intros He. inversion He; subst e'. clear He.
  unfold build_and_analyse in Hb.
  destruct (Beam eng (length f) (E f) (I f)) as [b0 | x0]; cbn [from_engine bind] in Hb.
  2: { left. exists x0. congruence. }
  destruct (add_support_rows eng b0 (dropna_supports (supports_df f)))
    as [b1 | e1] eqn:Hs; cbn [bind] in Hb.
  2: { inversion Hb; subst e1.
       destruct (supports_loop_raises eng (dropna_supports (supports_df f)) b0 e)
         as [H | (row & x & t & Hin & H)]; auto.
       - intros row Hin. now apply dropna_supports_In in Hin.
       - right. exists row, x, t. split; [| exact H].
         now apply dropna_supports_In in Hin. }
  destruct (add_load_rows eng b1 (dropna_loads (loads_df f)))
    as [b2 | e2] eqn:Hl; cbn [bind] in Hb.
  2: { inversion Hb; subst e2. left.
       apply (loads_loop_raises eng (dropna_loads (loads_df f)) b1 e); [| exact Hl].
       intros row Hin. apply dropna_loads_In in Hin.
       destruct Hin as (_ & k & mag & x & _ & Hm & Hx). now exists mag, x. }
  destruct (analyse eng b2) as [r | x3]; cbn [from_engine] in Hb; [discriminate |].
  left. exists x3. congruence.
Qed.

(** A support row of type Clamp ends the run in [KeyError('Clamp')]. *)
Lemma script_exceptions_witness :
  snd (script recorder empty_session
         (mkForm 6 200e9 9.05e-6 [mkSupportRow (Some 0) (Some "Clamp")] [] true))
  = Traceback (eng := recorder) (KeyError (Some "Clamp"))
  /\ @KeyError Empty_set (Some "Clamp") <> TypeError.
Proof.
  assert (H : snd (script recorder empty_session
                     (mkForm 6 200e9 9.05e-6
                             [mkSupportRow (Some 0) (Some "Clamp")] [] true))
              = Traceback (eng := recorder) (KeyError (Some "Clamp")))
    by reflexivity.
  split.
  - exact H.
  - exact (proj1 (script_exceptions recorder empty_session _ _ H)).
Defined.

(** ** The dispatch *)

(** X3.  A dispatched load carries the row's magnitude and start position
    as they are: nothing is scaled, shifted or clamped.  The end position is
    read for a UDL only, where it becomes the end of the span as written
    (the start when it is missing); a Point Load and a Torque are the same
    whatever the cell holds. *)
Theorem dispatch_passes_values_through :
  forall (kind : option string) (mag x0 : Q) (x_end : option Q) (ld : Load),
    dispatch kind mag x0 x_end = Some ld ->
    load_force ld = mag
    /\ load_start ld = x0
    /\ (kind <> Some "UDL" ->
        forall x_end', dispatch kind mag x0 x_end' = Some ld)
    /\ (kind = Some "UDL" ->
        ld = UDLV mag (x0, match x_end with Some xe => xe | None => x0 end)).
Proof.
  intros [k |] mag x0 x_end ld; unfold dispatch; [| discriminate].
  destruct (String.eqb_spec k "Point Load") as [-> | H1].
  { intros H; inversion H; subst ld. repeat split; auto. discriminate. }
  destruct (String.eqb_spec k "UDL") as [-> | H2].
  { intros H; inversion H; subst ld. repeat split; auto. congruence. }
  destruct (String.eqb_spec k "Torque") as [-> | H3]; [| discriminate].
  intros H; inversion H; subst ld. repeat split; auto. discriminate.
Qed.

(** A UDL from 4 back to 1 is dispatched with its span as written. *)
Lemma dispatch_passes_values_through_witness :
  dispatch (Some "UDL") (-250) 4 (Some 1) = Some (UDLV (-250) (4, 1))
  /\ load_force (UDLV (-250) (4, 1)) = -250
  /\ load_start (UDLV (-250) (4, 1)) = 4.
Proof.
  assert (H : dispatch (Some "UDL") (-250) 4 (Some 1) = Some (UDLV (-250) (4, 1)))
    by reflexivity.
  pose proof (dispatch_passes_values_through _ _ _ _ _ H) as (Hf & Hs & _).
  exact (conj H (conj Hf Hs)).
Defined.

(** ** What the package is handed *)

Lemma supports_loop_feeds (eng : Engine) :
  forall (rows : list SupportRow) (b : beam eng),
    known_types rows ->
    add_support_rows eng b (dropna_supports rows)
    = feed (add_supports eng) b (collect handed_support rows).
Proof.
  induction rows as [| row rest IH]; intros b Hk; [reflexivity |].
  pose proof (known_types_tail _ _ Hk) as Hrest.
  destruct (support_row_shape row) as [Hinc | (x & t & ->)].
  - rewrite dropna_supports_incomplete by exact Hinc.
    rewrite IH by exact Hrest.
    cbn [collect]. unfold handed_support.
    destruct Hinc as [-> | ->]; [| destruct (sr_x row)]; reflexivity.
  - rewrite dropna_supports_complete.
    destruct (lookup_offered t (Hk _ x t (or_introl eq_refl) eq_refl eq_refl))
      as [triple Ht].
    cbn [add_support_rows collect]. unfold support_of_row, handed_support.
    cbn [float bind sr_x sr_type SUPPORT_MAP_getitem]. rewrite Ht.
    cbn [bind feed].
    destruct (add_supports eng b (mkSupport x triple)); cbn [from_engine bind];
      [apply IH; exact Hrest | reflexivity].
Qed.

Lemma loads_loop_feeds (eng : Engine) :
  forall (rows : list LoadRow) (b : beam eng),
    add_load_rows eng b (dropna_loads rows)
    = feed (add_loads eng) b (collect handed_load rows).
Proof.
  induction rows as [| row rest IH]; intros b; [reflexivity |].
  destruct (load_row_shape row) as [Hinc | (k & mag & x & xe & ->)].
  - rewrite dropna_loads_incomplete by exact Hinc.
    rewrite IH. cbn [collect]. unfold handed_load.
    destruct Hinc as [Hk | [-> | Hx]]; [| reflexivity |].
    + rewrite Hk. destruct (lr_magnitude row), (lr_x row); reflexivity.
    + rewrite Hx. destruct (lr_magnitude row); reflexivity.
  - rewrite dropna_loads_complete.
    cbn [add_load_rows collect]. unfold add_load_row, handed_load.
    cbn [float bind lr_kind lr_magnitude lr_x lr_x_end].
    destruct (dispatch (Some k) mag x xe) as [ld |]; cbn [feed bind].
    + destruct (add_loads eng b ld); cbn [from_engine bind];
        [apply IH | reflexivity].
    + apply IH.
Qed.

Lemma recorder_keeps_supports (l : list Support) :
  forall b : beam recorder,
    feed (add_supports recorder) b l = Ok (fst b ++ l, snd b).
Proof.
  induction l as [| s l IH]; intros [ss ls]; cbn [feed fst snd].
  - now rewrite app_nil_r.
  - cbn [add_supports recorder from_engine bind]. rewrite IH.
    cbn [fst snd]. now rewrite <- app_assoc.
Qed.

Lemma recorder_keeps_loads (l : list Load) :
  forall b : beam recorder,
    feed (add_loads recorder) b l = Ok (fst b, snd b ++ l).
Proof.
  induction l as [| s l IH]; intros [ss ls]; cbn [feed fst snd].
  - now rewrite app_nil_r.
  - cbn [add_loads recorder from_engine bind]. rewrite IH.
    cbn [fst snd]. now rewrite <- app_assoc.
Qed.

(** X4.  When every complete support row has a type of the dropdown, a run
    is the constructor, then [add_supports] on the supports of the complete
    rows in table order, then [add_loads] on the loads of the dispatched
    rows in table order, then [analyse], stopping at the first call that
    raises; rows that are dropped or not dispatched cause no call.  An
    engine that accepts everything ends up with exactly these two lists. *)
Theorem engine_is_handed_rows_in_order :
  forall (eng : Engine) (f : Form),
    known_types (supports_df f) ->
    build_and_analyse eng f
    = (b <- from_engine (Beam eng (length f) (E f) (I f)) ;;
       b <- feed (add_supports eng) b (collect handed_support (supports_df f)) ;;
       b <- feed (add_loads eng) b (collect handed_load (loads_df f)) ;;
       from_engine (analyse eng b))
    /\ build_and_analyse recorder f
       = Ok (collect handed_support (supports_df f),
             collect handed_load (loads_df f)).
Proof.
  intros eng f Hk.
  assert (Hgen : forall eng' : Engine,
             build_and_analyse eng' f
             = (b <- from_engine (Beam eng' (length f) (E f) (I f)) ;;
                b <- feed (add_supports eng') b (collect handed_support (supports_df f)) ;;
                b <- feed (add_loads eng') b (collect handed_load (loads_df f)) ;;
                from_engine (analyse eng' b))).
  { intros eng'. unfold build_and_analyse.
    destruct (Beam eng' (length f) (E f) (I f)) as [b0 | x]; cbn [from_engine bind];
      [| reflexivity].
    rewrite supports_loop_feeds by exact Hk.
    destruct (feed (add_supports eng') b0 _) as [b1 | e]; cbn [bind]; [| reflexivity].
    now rewrite loads_loop_feeds. }
  split; [apply Hgen |].
  rewrite Hgen. cbn [Beam recorder from_engine bind].
  rewrite recorder_keeps_supports. cbn [bind fst snd app].
  rewrite recorder_keeps_loads. reflexivity.
Qed.

(** A table with a blank row between two supports, and a load of a kind
    that is not dispatched before a torque. *)
Lemma engine_is_handed_rows_in_order_witness :
  build_and_analyse recorder
    (mkForm 6 200e9 9.05e-6
            [ mkSupportRow (Some 0) (Some "Pin");
              mkSupportRow None None;
              mkSupportRow (Some 6) (Some "Roller") ]
            [ mkLoadRow (Some "Moment") (Some 5) (Some 1) None;
              mkLoadRow (Some "Torque") (Some 5) (Some 1) None ] true)
  = Ok ([mkSupport 0 (1, 1, 0)%Z; mkSupport 6 (0, 1, 0)%Z], [PointTorque 5 1]).
Proof.
  refine (proj2 (engine_is_handed_rows_in_order recorder _ _)).
  intros row x t [<- | [<- | [<- | []]]] Hx Ht; inversion Ht; simpl; auto.
Defined.

(** ** The first failure *)

Lemma add_support_rows_app (eng : Engine) (l1 l2 : list SupportRow) :
  forall b : beam eng,
    add_support_rows eng b (l1 ++ l2)
    = (b1 <- add_support_rows eng b l1 ;; add_support_rows eng b1 l2).
Proof.
  induction l1 as [| row l1 IH]; intros b; [reflexivity |].
  cbn [app add_support_rows].
  destruct (support_of_row eng row) as [s | e]; cbn [bind]; [| reflexivity].
  destruct (add_supports eng b s) as [b' | x]; cbn [from_engine bind];
    [apply IH | reflexivity].
Qed.

Lemma add_load_rows_app (eng : Engine) (l1 l2 : list LoadRow) :
  forall b : beam eng,
    add_load_rows eng b (l1 ++ l2)
    = (b1 <- add_load_rows eng b l1 ;; add_load_rows eng b1 l2).
Proof.
  induction l1 as [| row l1 IH]; intros b; [reflexivity |].
  cbn [app add_load_rows].
  destruct (add_load_row eng b row) as [b' | e]; cbn [bind];
    [apply IH | reflexivity].
Qed.

(** X5.  Only the first failure of a run is reported.  If the run fails by
    the end of the supports loop on a supports table, it fails the same way
    whatever rows follow in that table and whatever the loads table holds;
    if it fails by the end of the loads loop on a loads table, it fails the
    same way whatever rows follow in that table. *)
Theorem first_failure_decides :
  forall (eng : Engine) (ss : SessionState) (l e i : Q)
         (S1 : list SupportRow) (L1 : list LoadRow)
         (err : exn (engine_error eng)),
    (after_supports eng l e i S1 = Raise err ->
     forall S2 L,
       snd (script eng ss (mkForm l e i (S1 ++ S2) L true)) = Traceback err)
    /\ (after_loads eng l e i S1 L1 = Raise err ->
        forall L2,
          snd (script eng ss (mkForm l e i S1 (L1 ++ L2) true)) = Traceback err).
Proof.
  intros eng ss l e i S1 L1 err.
  unfold after_loads, after_supports, script, build_and_analyse.
  cbn [submitted snd length E I supports_df loads_df].
  split.
  - intros H S2 L. rewrite dropna_supports_app.
    destruct (Beam eng l e i) as [b0 | x]; cbn [from_engine bind] in *;
      [| now inversion H].
    rewrite add_support_rows_app. rewrite H. reflexivity.
  - intros H L2. rewrite dropna_loads_app.
    destruct (Beam eng l e i) as [b0 | x]; cbn [from_engine bind] in *;
      [| now inversion H].
    destruct (add_support_rows eng b0 (dropna_supports S1)) as [b1 | e1];
      cbn [bind] in *; [| now inversion H].
    rewrite add_load_rows_app. rewrite H. reflexivity.
Qed.

(** A support row of an unknown type hides the unknown type after it. *)
Lemma first_failure_decides_witness :
  after_supports recorder 6 200e9 9.05e-6 [mkSupportRow (Some 0) (Some "Clamp")]
  = Raise (KeyError (Some "Clamp"))
  /\ snd (script recorder empty_session
            (mkForm 6 200e9 9.05e-6
                    ([mkSupportRow (Some 0) (Some "Clamp")]
                     ++ [mkSupportRow (Some 6) (Some "Hinge")])
                    DEFAULT_LOADS true))
     = Traceback (eng := recorder) (KeyError (Some "Clamp")).
Proof.
  assert (H : after_supports recorder 6 200e9 9.05e-6
                             [mkSupportRow (Some 0) (Some "Clamp")]
              = Raise (KeyError (Some "Clamp"))) by reflexivity.
  split.
  - exact H.
  - exact (proj1 (first_failure_decides recorder empty_session 6 200e9 9.05e-6
                    [mkSupportRow (Some 0) (Some "Clamp")] []
                    (KeyError (Some "Clamp")))
                 H [mkSupportRow (Some 6) (Some "Hinge")] DEFAULT_LOADS).
Defined.

(** ** The cache over several runs *)

(** X6.  After any number of runs the cache holds the two tables of the
    last run that was submitted, whether that run succeeded or raised, and
    the session is as it started if none was; the editors of the next run
    open with those tables. *)
Theorem cache_holds_last_submitted_tables :
  forall (eng : Engine) (ss : SessionState) (fs : list Form),
    fst (runs eng ss fs)
    = match last_submitted fs with
      | Some f => mkSession (Some (supports_df f)) (Some (loads_df f))
      | None => ss
      end
    /\ supports_editor_data (fst (runs eng ss fs))
       = match last_submitted fs with
         | Some f => supports_df f
         | None => supports_editor_data ss
         end
    /\ loads_editor_data (fst (runs eng ss fs))
       = match last_submitted fs with
         | Some f => loads_df f
         | None => loads_editor_data ss
         end.
Proof.
  intros eng ss fs.
  assert (H : fst (runs eng ss fs)
              = match last_submitted fs with
                | Some f => mkSession (Some (supports_df f)) (Some (loads_df f))
                | None => ss
                end).
  { revert ss.
    induction fs as [| f rest IH]; intros ss; [reflexivity |].
    cbn [runs last_submitted].
    destruct (script eng ss f) as [ss1 page] eqn:Hs.
    specialize (IH ss1).
    destruct (runs eng ss1 rest) as [ss2 pages]. cbn [fst] in *.
    rewrite IH.
    destruct (last_submitted rest) as [g |]; [reflexivity |].
    unfold script in Hs.
    destruct (submitted f); inversion Hs; reflexivity. }
  rewrite H. destruct (last_submitted fs); repeat split.
Qed.

(** ** Rounding of positions *)

Lemma round_half_even_near (n : Z) (d : positive) :
  (Z.abs (2 * (round_half_even n d * Zpos d - n)) <= Zpos d)%Z.
Proof.
  unfold round_half_even.
  pose proof (Z.div_mod n (Zpos d) ltac:(lia)) as Hdm.
  pose proof (Z.mod_pos_bound n (Zpos d) ltac:(lia)) as Hr.
  destruct (Z.compare_spec (2 * (n mod Zpos d)) (Zpos d)) as [He | Hl | Hg];
    [destruct (Z.even (n / Zpos d)) | |]; nia.
Qed.

(** A rounded position is within half a thousandth of the position. *)
Lemma round3_near (x : Q) : Qabs (round3 x - x) <= 1 # 2000.
Proof.
  apply Qabs_Qle_condition. unfold round3.
  pose proof (round_half_even_near (Qnum x * 1000) (Qden x)) as H.
  destruct x as [n d]. cbn [Qnum Qden] in *.
  set (k := round_half_even (n * 1000) d) in *.
  unfold Qle, Qminus, Qplus, Qopp; cbn [Qnum Qden].
  split; nia.
Qed.

(** Rounding does not depend on how the fraction is written. *)
Lemma round_half_even_fraction (n1 n2 : Z) (d1 d2 : positive) :
  (n1 * Zpos d2 = n2 * Zpos d1)%Z ->
  round_half_even n1 d1 = round_half_even n2 d2.
Proof.
  intros Heq. unfold round_half_even.
  pose proof (Z.div_mod n1 (Zpos d1) ltac:(lia)) as Hdm1.
  pose proof (Z.mod_pos_bound n1 (Zpos d1) ltac:(lia)) as Hr1.
  pose proof (Z.div_mod n2 (Zpos d2) ltac:(lia)) as Hdm2.
  pose proof (Z.mod_pos_bound n2 (Zpos d2) ltac:(lia)) as Hr2.
  set (q1 := (n1 / Zpos d1)%Z) in *. set (r1 := (n1 mod Zpos d1)%Z) in *.
  set (q2 := (n2 / Zpos d2)%Z) in *. set (r2 := (n2 mod Zpos d2)%Z) in *.
  assert (Hq : q1 = q2).
  { assert (H : (Zpos d1 * Zpos d2 * (q1 - q2) = r2 * Zpos d1 - r1 * Zpos d2)%Z) by nia.
    assert (Hup : (r2 * Zpos d1 - r1 * Zpos d2 < Zpos d1 * Zpos d2)%Z) by nia.
    assert (Hlo : (- (Zpos d1 * Zpos d2) < r2 * Zpos d1 - r1 * Zpos d2)%Z) by nia.
    assert (HD : (0 < Zpos d1 * Zpos d2)%Z) by lia.
    set (D := (Zpos d1 * Zpos d2)%Z) in *.
    assert (Hlt : (q1 - q2 < 1)%Z) by nia.
    assert (Hgt : (-1 < q1 - q2)%Z) by nia.
    lia. }
  assert (Hr : (r1 * Zpos d2 = r2 * Zpos d1)%Z) by nia.
  rewrite <- Hq.
  destruct (Z.compare_spec (2 * r1) (Zpos d1));
    destruct (Z.compare_spec (2 * r2) (Zpos d2)); try reflexivity; nia.
Qed.

Lemma round3_equal_positions (x y : Q) : x == y -> round3 x = round3 y.
Proof.
  intros H. unfold round3. f_equal.
  apply round_half_even_fraction. unfold Qeq in H. nia.
Qed.

Lemma round3_separates (x y : Q) : x + (1 # 1000) < y -> ~ round3 x == round3 y.
Proof.
  intros Hlt Heq.
  pose proof (round3_near x) as Hx. pose proof (round3_near y) as Hy.
  apply Qabs_Qle_condition in Hx. apply Qabs_Qle_condition in Hy.
  assert (Hx' : round3 x <= x + (1 # 2000)) by lra.
  assert (Hy' : y - (1 # 2000) <= round3 y) by lra.
  rewrite Heq in Hx'. lra.
Qed.

Lemma string_length_append (a b : string) :
  String.length (a ++ b)%string = (String.length a + String.length b)%nat.
Proof.
  induction a as [| ch a IH]; [reflexivity |].
  cbn [String.append String.length]. now rewrite IH.
Qed.

Lemma string_app_inv_tail (a b c : string) :
  (a ++ c)%string = (b ++ c)%string -> a = b.
Proof.
  revert b. induction a as [| ch a IH]; intros b H.
  - destruct b as [| ch' b]; [reflexivity |].
    exfalso. apply (f_equal String.length) in H.
    cbn [String.append String.length] in H.
    rewrite string_length_append in H. lia.
  - destruct b as [| ch' b].
    + exfalso. apply (f_equal String.length) in H.
      cbn [String.append String.length] in H.
      rewrite string_length_append in H. lia.
    + cbn [String.append] in H. inversion H; subst. f_equal. now apply IH.
Qed.

(** ** The reaction summary *)

Section SummaryFacts.

Variable R : Type.
Variable str : Q -> string.

Lemma dict_set_keys (k : string) (v : R) (d : list (string * R)) :
  map fst (dict_set k v d)
  = if existsb (String.eqb k) (map fst d) then map fst d else map fst d ++ [k].
Proof.
  induction d as [| [k' v'] d IH]; [reflexivity |].
  cbn [dict_set map fst existsb].
  destruct (String.eqb k k'); cbn [orb map fst app]; [reflexivity |].
  rewrite IH. now destruct (existsb (String.eqb k) (map fst d)).
Qed.

Lemma existsb_eqb_In (k : string) (l : list string) :
  existsb (String.eqb k) l = true <-> In k l.
Proof.
  rewrite existsb_exists. split.
  - intros (k' & Hin & He). apply String.eqb_eq in He. now subst.
  - intros H. exists k. split; [exact H | apply String.eqb_refl].
Qed.

Lemma dict_set_NoDup (k : string) (v : R) (d : list (string * R)) :
  NoDup (map fst d) -> NoDup (map fst (dict_set k v d)).
Proof.
  intros H. rewrite dict_set_keys.
  destruct (existsb (String.eqb k) (map fst d)) eqn:He; [exact H |].
  apply NoDup_app; [exact H | repeat constructor; auto | ].
  intros a Ha [<- | []].
  apply existsb_eqb_In in Ha. congruence.
Qed.

Lemma dict_set_In_keys (k : string) (v : R) (d : list (string * R)) (a : string) :
  In a (map fst (dict_set k v d)) <-> a = k \/ In a (map fst d).
Proof.
  rewrite dict_set_keys.
  destruct (existsb (String.eqb k) (map fst d)) eqn:He.
  - apply existsb_eqb_In in He. split; [auto | intros [-> | H]; auto].
  - rewrite in_app_iff. simpl. intuition.
Qed.

(** Reading a key after writing one. *)
Lemma dict_get_set (k k' : string) (v : R) (d : list (string * R)) :
  dict_get k' (dict_set k v d)
  = if String.eqb k' k then Some v else dict_get k' d.
Proof.
  induction d as [| [k0 v0] d IH]; cbn [dict_set dict_get]; [reflexivity |].
  destruct (String.eqb_spec k k0) as [-> | Hne]; cbn [dict_get].
  - destruct (String.eqb k' k0); reflexivity.
  - rewrite IH. destruct (String.eqb_spec k' k) as [-> | Hne'].
    + destruct (String.eqb_spec k k0); [contradiction | reflexivity].
    + reflexivity.
Qed.

Lemma summary_from_keys (supports : list Support) (g : nat -> R) :
  forall (i : nat) (d : list (string * R)),
    NoDup (map fst d) ->
    NoDup (map fst (summary_from str i supports g d))
    /\ forall a, In a (map fst (summary_from str i supports g d))
                 <-> In a (map fst d) \/ In a (map (summary_key str) supports).
Proof.
  induction supports as [| s rest IH]; intros i d Hd; cbn [summary_from map].
  - split; [exact Hd | intros a; simpl; tauto].
  - destruct (IH (S i) (dict_set (summary_key str s) (g i) d)
                 (dict_set_NoDup _ _ _ Hd)) as [Hn Hk].
    split; [exact Hn |].
    intros a. rewrite Hk, dict_set_In_keys. simpl. intuition.
Qed.

(** The value under [k] after the comprehension has run from index [i]:
    that of the last support with key [k], or what [d] had. *)
Lemma summary_from_get (k : string) (supports : list Support) (g : nat -> R) :
  forall (i : nat) (d : list (string * R)),
    (exists j s,
        nth_error supports j = Some s /\ summary_key str s = k
        /\ (forall j' s', (j < j')%nat -> nth_error supports j' = Some s' ->
                          summary_key str s' <> k)
        /\ dict_get k (summary_from str i supports g d) = Some (g (i + j)%nat))
    \/ ((forall j s, nth_error supports j = Some s -> summary_key str s <> k)
        /\ dict_get k (summary_from str i supports g d) = dict_get k d).
Proof.
  induction supports as [| s rest IH]; intros i d; cbn [summary_from].
  - right. split; [intros [| j] s H; discriminate | reflexivity].
  - destruct (IH (S i) (dict_set (summary_key str s) (g i) d))
      as [(j & s1 & Hj & Hk & Hlast & Hget) | [Hnone Hget]].
    + left. exists (S j), s1. repeat split; auto.
      * intros [| j'] s' Hlt Hn; [lia |]. apply (Hlast j' s'); [lia | exact Hn].
      * rewrite Hget. f_equal. f_equal. lia.
    + rewrite dict_get_set in Hget.
      destruct (String.eqb_spec k (summary_key str s)) as [-> | Hne].
      * left. exists 0%nat, s. repeat split; auto.
        -- intros [| j'] s' Hlt Hn; [lia |]. now apply (Hnone j' s').
        -- rewrite Hget. f_equal. f_equal. lia.
      * right. split; [| exact Hget].
        intros [| j] s' Hn; [inversion Hn; subst; congruence |].
        now apply (Hnone j s').
Qed.

Lemma summary_from_fresh (supports : list Support) (g : nat -> R) :
  forall (i : nat) (d : list (string * R)),
    NoDup (map fst d ++ map (summary_key str) supports) ->
    summary_from str i supports g d
    = d ++ combine (map (summary_key str) supports)
                   (map g (seq i (List.length supports))).
Proof.
  induction supports as [| s rest IH]; intros i d Hn;
    cbn [summary_from map List.length seq combine].
  - now rewrite app_nil_r.
  - assert (Hfresh : existsb (String.eqb (summary_key str s)) (map fst d) = false).
    { destruct (existsb _ _) eqn:He; [| reflexivity].
      apply existsb_eqb_In in He. cbn [map] in Hn.
      apply NoDup_remove_2 in Hn. exfalso. apply Hn.
      apply in_or_app. now left. }
    assert (Hset : dict_set (summary_key str s) (g i) d
                   = d ++ [(summary_key str s, g i)]).
    { clear -Hfresh. induction d as [| [k0 v0] d IHd]; [reflexivity |].
      cbn [map fst existsb] in Hfresh. apply orb_false_iff in Hfresh.
      destruct Hfresh as [H0 H1]. cbn [dict_set]. rewrite H0.
      cbn [app]. now rewrite IHd. }
    rewrite Hset, IH.
    + now rewrite <- app_assoc.
    + rewrite map_app. cbn [map fst]. rewrite <- app_assoc. exact Hn.
Qed.

End SummaryFacts.

(** X7.  The reaction summary has one entry per distinct key: its keys are
    those of the supports, none twice, so it never has more entries than
    the beam has supports. *)
Theorem summary_has_one_entry_per_key :
  forall (R : Type) (str : Q -> string) (supports : list Support)
         (get_reaction : nat -> R),
    NoDup (map fst (reaction_summary str supports get_reaction))
    /\ (forall k, In k (map fst (reaction_summary str supports get_reaction))
                  <-> In k (map (summary_key str) supports))
    /\ (List.length (reaction_summary str supports get_reaction)
        <= List.length supports)%nat.
Proof.
  intros R str supports g. unfold reaction_summary.
  destruct (summary_from_keys R str supports g 0 [] (NoDup_nil _)) as [Hn Hk].
  assert (Hk' : forall k, In k (map fst (summary_from str 0 supports g []))
                          <-> In k (map (summary_key str) supports)).
  { intros k. rewrite Hk. simpl. tauto. }
  split; [exact Hn | split; [exact Hk' |]].
  rewrite <- (length_map fst), <- (length_map (summary_key str) supports).
  apply NoDup_incl_length; [exact Hn |].
  intros k Hin. now apply Hk'.
Qed.

(** X8.  Under the key of any support the summary shows the reaction of the
    last support that has this key: a support followed by another with the
    same key does not show in the summary. *)
Theorem summary_shows_last_reaction :
  forall (R : Type) (str : Q -> string) (supports : list Support)
         (get_reaction : nat -> R) (i : nat) (s : Support),
    nth_error supports i = Some s ->
    exists j s',
      (i <= j)%nat
      /\ nth_error supports j = Some s'
      /\ summary_key str s' = summary_key str s
      /\ (forall j' s'', (j < j')%nat -> nth_error supports j' = Some s'' ->
                         summary_key str s'' <> summary_key str s)
      /\ dict_get (summary_key str s)
                  (reaction_summary str supports get_reaction)
         = Some (get_reaction j).
Proof.
  intros R str supports g i s Hi. unfold reaction_summary.
  destruct (summary_from_get R str (summary_key str s) supports g 0 [])
    as [(j & s' & Hj & Hk & Hlast & Hget) | [Hnone _]].
  - exists j, s'. repeat split; auto.
    destruct (Nat.le_gt_cases i j) as [Hle | Hgt]; [exact Hle |].
    exfalso. now apply (Hlast i s Hgt Hi).
  - exfalso. now apply (Hnone i s Hi).
Qed.

(** Two supports at 0: the summary shows the reaction of the second. *)
Lemma summary_shows_last_reaction_witness :
  nth_error [mkSupport 0 (1, 1, 0)%Z; mkSupport 0 (0, 0, 1)%Z] 0
  = Some (mkSupport 0 (1, 1, 0)%Z)
  /\ exists j s',
      (0 <= j)%nat
      /\ nth_error [mkSupport 0 (1, 1, 0)%Z; mkSupport 0 (0, 0, 1)%Z] j = Some s'
      /\ summary_key zero_or_not s' = summary_key zero_or_not (mkSupport 0 (1, 1, 0)%Z)
      /\ (forall j' s'', (j < j')%nat ->
            nth_error [mkSupport 0 (1, 1, 0)%Z; mkSupport 0 (0, 0, 1)%Z] j' = Some s'' ->
            summary_key zero_or_not s''
            <> summary_key zero_or_not (mkSupport 0 (1, 1, 0)%Z))
      /\ dict_get (summary_key zero_or_not (mkSupport 0 (1, 1, 0)%Z))
                  (reaction_summary zero_or_not
                     [mkSupport 0 (1, 1, 0)%Z; mkSupport 0 (0, 0, 1)%Z]
                     (fun i => i))
         = Some j.
Proof.
  split.
  - reflexivity.
  - exact (summary_shows_last_reaction nat zero_or_not
             [mkSupport 0 (1, 1, 0)%Z; mkSupport 0 (0, 0, 1)%Z]
             (fun i => i) 0 (mkSupport 0 (1, 1, 0)%Z) eq_refl).
Defined.

(** X9.  When the keys of the supports are pairwise different, the summary
    lists every support once, in the order of the supports, each key with
    the reaction of its own index. *)
Theorem distinct_keys_give_one_entry_each :
  forall (R : Type) (str : Q -> string) (supports : list Support)
         (get_reaction : nat -> R),
    NoDup (map (summary_key str) supports) ->
    reaction_summary str supports get_reaction
    = combine (map (summary_key str) supports)
              (map get_reaction (seq 0 (List.length supports))).
Proof.
  intros R str supports g Hn. unfold reaction_summary.
  now rewrite (summary_from_fresh R str supports g 0 []).
Qed.

(** Supports at 0 and 6. *)
Lemma distinct_keys_give_one_entry_each_witness :
  NoDup (map (summary_key zero_or_not)
             [mkSupport 0 (1, 1, 1)%Z; mkSupport 6 (1, 1, 1)%Z])
  /\ reaction_summary zero_or_not
       [mkSupport 0 (1, 1, 1)%Z; mkSupport 6 (1, 1, 1)%Z] (fun i => i)
     = [("0.0 m", 0%nat); ("6.0 m", 1%nat)].
Proof.
  assert (Hn : NoDup (map (summary_key zero_or_not)
                          [mkSupport 0 (1, 1, 1)%Z; mkSupport 6 (1, 1, 1)%Z])).
  { repeat constructor; simpl; intuition discriminate. }
  split.
  - exact Hn.
  - exact (distinct_keys_give_one_entry_each nat zero_or_not
             [mkSupport 0 (1, 1, 1)%Z; mkSupport 6 (1, 1, 1)%Z] (fun i => i) Hn).
Defined.

(** X10.  Two supports at the same position have the same key, however the
    position is written and whatever their types: a beam with just these
    two supports gets a summary of one entry, which holds the reaction of
    the second. *)
Theorem coincident_supports_share_an_entry :
  forall (R : Type) (str : Q -> string) (s1 s2 : Support)
         (get_reaction : nat -> R),
    position s1 == position s2 ->
    summary_key str s1 = summary_key str s2
    /\ reaction_summary str [s1; s2] get_reaction
       = [(summary_key str s1, get_reaction 1%nat)].
Proof.
  intros R str s1 s2 g Hpos.
  assert (Hk : summary_key str s1 = summary_key str s2).
  { unfold summary_key. now rewrite (round3_equal_positions _ _ Hpos). }
  split; [exact Hk |].
  unfold reaction_summary. cbn [summary_from dict_set].
  rewrite <- Hk. now rewrite String.eqb_refl.
Qed.

(** A pin at 3 and a rotational restraint at 6/2. *)
Lemma coincident_supports_share_an_entry_witness :
  3 == 6 # 2
  /\ reaction_summary zero_or_not
       [mkSupport 3 (1, 1, 0)%Z; mkSupport (6 # 2) (0, 0, 1)%Z] (fun i => i)
     = [("6.0 m", 1%nat)].
Proof.
  assert (H : 3 == 6 # 2) by reflexivity.
  split.
  - exact H.
  - exact (proj2 (coincident_supports_share_an_entry nat zero_or_not
                    (mkSupport 3 (1, 1, 0)%Z) (mkSupport (6 # 2) (0, 0, 1)%Z)
                    (fun i => i) H)).
Defined.

(** X11.  The position in a key is within half a millimetre of the
    support's, and two supports more than a millimetre apart round to
    different positions, so their keys differ as soon as the formatting
    tells these two numbers apart. *)
Theorem supports_over_a_millimetre_apart :
  forall (str : Q -> string) (s1 s2 : Support),
    position s1 + (1 # 1000) < position s2 ->
    Qabs (round3 (position s1) - position s1) <= 1 # 2000
    /\ ~ round3 (position s1) == round3 (position s2)
    /\ ((str (round3 (position s1)) = str (round3 (position s2)) ->
         round3 (position s1) = round3 (position s2)) ->
        summary_key str s1 <> summary_key str s2).
Proof.
  intros str s1 s2 Hlt.
  pose proof (round3_separates _ _ Hlt) as Hsep.
  split; [apply round3_near | split; [exact Hsep |]].
  intros Hinj Hk. unfold summary_key in Hk.
  apply string_app_inv_tail in Hk. apply Hinj in Hk.
  apply Hsep. now rewrite Hk.
Qed.

(** Supports at 0 and 6. *)
Lemma supports_over_a_millimetre_apart_witness :
  0 + (1 # 1000) < 6
  /\ summary_key zero_or_not (mkSupport 0 (1, 1, 1)%Z)
     <> summary_key zero_or_not (mkSupport 6 (1, 1, 1)%Z).
Proof.
  assert (H : 0 + (1 # 1000) < 6) by reflexivity.
  split.
  - exact H.
  - apply (proj2 (proj2 (supports_over_a_millimetre_apart
                           zero_or_not (mkSupport 0 (1, 1, 1)%Z)
                           (mkSupport 6 (1, 1, 1)%Z) H))).
    discriminate.
Defined.
